(** * Verification of the spirals trainer glue code

    Shallow embedding of [spirals.py] (class [SpiralsTrainer]) and of
    [scripts/test_spacy.py].

    Conventions of the embedding.
    - Python floats and framework tensors of floats are idealised as real
      numbers ([R]); rounding, [nan] and [inf] are outside the model, so
      the mean of an empty list and a tensor divided by zero, which the
      libraries turn into [nan] or [inf], have no counterpart here.
    - Python dicts are finite maps ([gmap string _]) where only lookups
      matter, and lists of [(key, value)] pairs in iteration order where
      the code iterates over [items()].
    - Code that can raise returns an [outcome]: either [Returns v] or
      [Raises e] for the exception [e].
    - Functions of external libraries (numpy, torch, matplotlib, spaCy, the
      dataset class, the model) are either given by their documented
      behaviour or taken as parameters of the functions that call them.
    - Printing to the console and the handling of the figure window are
      not modelled, except where a [print] can raise.
    - [spirals.py] is written for both Python 2 and Python 3 (its
      [__future__] imports); the one place where they differ, a [range]
      passed to the tensor framework, takes the interpreter as a
      parameter. *)

From Stdlib Require Import Reals Lra Lia ZArith List Permutation.
From stdpp Require Import gmap strings list sorting.

Open Scope R_scope.
Set Warnings "-clear-no-such-hyp".

(** ** Exceptions and outcomes *)

Inductive exn : Type :=
| KeyError (key : string)
| IndexError
| AttributeError
| TypeError
| ZeroDivisionError
| ValueError.

Inductive outcome (A : Type) : Type :=
| Returns (a : A)
| Raises (e : exn).
Arguments Returns {A} a.
Arguments Raises {A} e.

#[global] Instance outcome_ret : MRet outcome := λ A a, Returns a.

#[global] Instance outcome_bind : MBind outcome := λ A B k c,
  match c with
  | Returns a => k a
  | Raises e => Raises e
  end.

(** [d[k]] on a Python dict. *)
Definition getitem {V : Type} (d : gmap string V) (k : string) : outcome V :=
  match d !! k with
  | Some v => Returns v
  | None => Raises (KeyError k)
  end.

(** [l[i]] on a list or along the first axis of an array. *)
Definition index {A : Type} (l : list A) (i : nat) : outcome A :=
  match l !! i with
  | Some x => Returns x
  | None => Raises IndexError
  end.

(** True division of Python numbers: raises on a zero divisor. *)
Definition pydiv (x y : R) : outcome R :=
  if Req_dec_T y 0 then Raises ZeroDivisionError else Returns (x / y).

(** ** numpy reductions on one-dimensional data *)

Module np.

(** [np.sum] of a sequence. *)
Definition sum (a : list R) : R := foldr Rplus 0 a.

(** [np.mean(a)] of a non-empty sequence: the sum of the elements divided
    by their number. On an empty sequence numpy gives [nan], which is not
    represented. *)
Definition mean (a : list R) : R := sum a / INR (length a).

(** [np.std(a)] with the default [ddof=0], as documented:
    [sqrt(mean(abs(a - a.mean())**2))]. *)
Definition std (a : list R) : R :=
  sqrt (mean (map (λ x, Rabs (x - mean a) ^ 2) a)).

End np.

(** The textbook quantities the summary is meant to hold. *)
Definition arithmetic_mean (a : list R) : R :=
  foldr Rplus 0 a / INR (length a).

Definition population_std (a : list R) : R :=
  sqrt (foldr (λ x acc, (x - arithmetic_mean a) ^ 2 + acc) 0 a / INR (length a)).

(** ** [SpiralsTrainer.summarize_metrics] *)

(** A metric accumulated over the dataset: a Python list with one value per
    sequence, or a scalar. *)
Inductive metric : Type :=
| MList (val : list R)
| MScalar (val : R).

(** One iteration of [for key, val in metrics.items()], for a nonzero
    [n_timesteps] and non-empty lists: a division by zero (an exception for
    a number, [inf] or [nan] for a tensor) and the [nan] that numpy gives
    for an empty list are not represented, and the theorems that depend on
    the values stored assume [n_timesteps ≠ 0] and non-empty lists. *)
Definition summarize_step (n_timesteps : Z) (summary : gmap string R)
    (item : string * metric) : gmap string R :=
  let (key, val) := item in
  match val with
  | MList val =>
      <[key +:+ "_std" := np.std val]> (<[key := np.mean val]> summary)
  | MScalar val =>
      <[key := val / IZR n_timesteps]> summary
  end.

Definition summarize_loop (metrics : list (string * metric)) (n_timesteps : Z)
    : gmap string R :=
  foldl (summarize_step n_timesteps) ∅ metrics.

(** The keys read by the [print] that follows the loop. *)
Definition printed_keys : list string :=
  ["kld_loss"; "rec_loss"; "mse"; "mse_std"].

(** [metrics] is the dict in iteration order. The format call looks up the
    four printed keys and raises [KeyError] at the first one missing. *)
Definition summarize_metrics (metrics : list (string * metric)) (n_timesteps : Z)
    : outcome (gmap string R) :=
  let summary := summarize_loop metrics n_timesteps in
  getitem summary "kld_loss";;
  getitem summary "rec_loss";;
  getitem summary "mse";;
  getitem summary "mse_std";;
  mret summary.

(** The summary keys an item of [metrics] assigns. *)
Definition writes (item : string * metric) : list string :=
  match item.2 with
  | MList _ => [item.1; item.1 +:+ "_std"]
  | MScalar _ => [item.1]
  end.

(** Each key read by the [print] is written by some item. *)
Definition printable (metrics : list (string * metric)) : Prop :=
  Forall (λ k, ∃ item, item ∈ metrics ∧ k ∈ writes item) printed_keys.

(** ** [SpiralsTrainer.default_args] *)

(** The fields of the parsed command line that the trainer code reads. *)
Record Args : Type := mkArgs {
  modalities : list string;
  rec_mults : option (gmap string R);
  corrupt : gmap string R;
  normalize : list string;
  data_dir : string;
  train_subdir : string;
  test_subdir : string
}.

Definition set_rec_mults (args : Args) (r : gmap string R) : Args :=
  mkArgs (modalities args) (Some r) (corrupt args) (normalize args)
         (data_dir args) (train_subdir args) (test_subdir args).

(** [args.corrupt.get('uniform', 0.0)] *)
Definition corrupt_uniform (args : Args) : R :=
  default 0 (corrupt args !! "uniform").

(** One entry of the dict comprehension:
    [m : (1.0 / dims[m]) / len(args.modalities) * corrupt_mult]. *)
Definition rec_mult_entry (dims : gmap string Z) (args : Args)
    (corrupt_mult : R) (acc : gmap string R) (m : string)
    : outcome (gmap string R) :=
  d ← getitem dims m;
  inv_dim ← pydiv 1 (IZR d);
  per_mod ← pydiv inv_dim (INR (length (modalities args)));
  mret (<[m := per_mod * corrupt_mult]> acc).

Fixpoint rec_mults_comprehension (dims : gmap string Z) (args : Args)
    (corrupt_mult : R) (acc : gmap string R) (ms : list string)
    : outcome (gmap string R) :=
  match ms with
  | [] => mret acc
  | m :: ms' =>
      acc' ← rec_mult_entry dims args corrupt_mult acc m;
      rec_mults_comprehension dims args corrupt_mult acc' ms'
  end.

(** The value of the entry of modality [m], given the dimension table. *)
Definition default_rec_mult (dims : gmap string Z) (args : Args)
    (corrupt_mult : R) (m : string) : R :=
  1 / IZR (default 0%Z (dims !! m)) / INR (length (modalities args))
  * corrupt_mult.

(** [dims] is [self.model.dims]. *)
Definition default_args (dims : gmap string Z) (args : Args) : outcome Args :=
  match rec_mults args with
  | None =>
      corrupt_mult ← pydiv 1 (1 - corrupt_uniform args);
      r ← rec_mults_comprehension dims args corrupt_mult ∅ (modalities args);
      mret (set_rec_mults args r)
  | Some _ => mret args
  end.

(** ** [SpiralsTrainer.load_data] *)

(** The dataset class is external: its constructor and its in-place
    [normalize_] method are parameters. [normalize_ mods ref self] is the
    state of [self] after [self.normalize_(modalities=mods, ref_data=ref)]. *)
Record dataset_class (D : Type) : Type := {
  SpiralsDataset : list string → string → string → D;
  normalize_ : list string → option D → D → D
}.
Arguments SpiralsDataset {D} _ _ _ _.
Arguments normalize_ {D} _ _ _ _.

(** The two dataset objects that [load_data] creates and mutates. *)
Inductive data_var : Type := train_data | test_data.

Record data_heap (D : Type) : Type := mkHeap {
  at_train : D;
  at_test : D;
  normalize_calls : list (data_var * option data_var)
}.
Arguments mkHeap {D} _ _ _.
Arguments at_train {D} _.
Arguments at_test {D} _.
Arguments normalize_calls {D} _.

Definition deref {D : Type} (h : data_heap D) (v : data_var) : D :=
  match v with
  | train_data => at_train h
  | test_data => at_test h
  end.

(** [self.normalize_(modalities=mods, ref_data=ref)] on the heap: the
    reference object is read in its state at the time of the call, the
    receiver is overwritten, and the call is logged. *)
Definition call_normalize {D : Type} (cls : dataset_class D)
    (mods : list string) (self : data_var) (ref : option data_var)
    (h : data_heap D) : data_heap D :=
  let new := normalize_ cls mods (deref h <$> ref) (deref h self) in
  let calls := normalize_calls h ++ [(self, ref)] in
  match self with
  | train_data => mkHeap new (at_test h) calls
  | test_data => mkHeap (at_train h) new calls
  end.

(** Returns the heap at the end of the call; the returned tuple is
    [(at_train h, at_test h)]. *)
Definition load_data {D : Type} (cls : dataset_class D)
    (abspath : string → string) (mods : list string) (args : Args)
    : data_heap D :=
  let dir := abspath (data_dir args) in
  let h := mkHeap (SpiralsDataset cls mods dir (train_subdir args))
                  (SpiralsDataset cls mods dir (test_subdir args)) [] in
  if bool_decide (0 < length (normalize args))%nat then
    let h := call_normalize cls (normalize args) test_data (Some train_data) h in
    let h := call_normalize cls (normalize args) train_data None h in
    h
  else h.

(** ** Tensor operations used by [compute_metrics]

    A tensor is a nested list, outermost axis first. The operations are the
    element-wise ones of the framework on operands of equal shape;
    broadcasting of unequal shapes is outside the model. *)

Abbreviation lmap := (fmap (M := list)) (only parsing).

Module torch.

(** [a - b] on tensors of the same shape; on shapes that do not broadcast
    the framework raises, which is not represented. *)
Definition sub (a b : list (list (list R))) : list (list (list R)) :=
  zip_with (zip_with (zip_with Rminus)) a b.

(** [a.pow(2)] *)
Definition pow2 (a : list (list (list R))) : list (list (list R)) :=
  lmap (lmap (lmap (λ x, x ^ 2))) a.

(** [a + b] on tensors of the same shape. *)
Definition add (a b : list (list (list R))) : list (list (list R)) :=
  zip_with (zip_with (zip_with Rplus)) a b.

(** [a.sum(dim=[2])] on a three-axis tensor: the sum over the last axis. *)
Definition sum_from_dim2 (a : list (list (list R))) : list (list R) :=
  lmap (lmap np.sum) a.

(** [mask.squeeze(-1)] on a tensor whose last axis has size one. *)
Definition squeeze_last (mask : list (list (list bool))) : list (list bool) :=
  lmap (lmap (λ cell, match cell with [k] => k | _ => false end)) mask.

(** [1 - mask] on a 0/1 byte mask. *)
Definition invert (mask : list (list bool)) : list (list bool) :=
  lmap (lmap negb) mask.

(** [val[sel] = 0.0] for a byte mask [sel] of the shape of [val]. *)
Definition masked_zero (val : list (list R)) (sel : list (list bool))
    : list (list R) :=
  zip_with (zip_with (λ v (z : bool), if z then 0 else v)) val sel.

(** [val.sum(dim=0)] on a tensor of shape [(T, B)]. *)
Definition sum_dim0 (B : nat) (val : list (list R)) : list R :=
  foldr (zip_with Rplus) (replicate B 0) val.

(** [a / b] on one-axis tensors of the same length with nonzero divisors;
    tensor division does not raise, and gives [inf] or [nan] at a zero
    divisor, which is not represented. *)
Definition div (a b : list R) : list R := zip_with Rdiv a b.

(** [a[order]] for a list of indices. *)
Definition index_select (a : list R) (order : list nat) : outcome (list R) :=
  mapM (index a) order.

End torch.

(** Python's builtin [sum] on a list of tensors: [0 + t1 + t2 + ...]. On
    the empty list the result is the integer [0], on which the following
    [.sum(dim=...)] raises [AttributeError]. *)
Definition py_sum (ts : list (list (list (list R))))
    : outcome (list (list (list R))) :=
  match ts with
  | [] => Raises AttributeError
  | t :: ts' => mret (foldl torch.add t ts')
  end.

(** ** [SpiralsTrainer.compute_metrics] *)

(** [recon] is the dict of per-modality [(mean, std)] pairs in iteration
    order; [targets] the dict of per-modality targets; tensors have shape
    [(T, B, D)], [mask] has shape [(T, B, 1)]. [kld] and [rec] are the
    values that the calls of [model.kld_loss] and [model.rec_loss] on this
    batch returned; the theorems say nothing of how these depend on the
    batch. The element-wise operations are those on tensors of equal
    shape and the divisions those by nonzero lengths: the theorems that
    rely on them assume well-shaped tensors and positive lengths. *)

(** The interpreter running the code. *)
Inductive python : Type := Python2 | Python3.

(** [mse.sum(dim=range(2, mse.dim()))] on a three-axis tensor. Under
    Python 2 [range] returns the list [[2]] and the last axis is summed;
    under Python 3 it returns a range object, which the framework rejects
    with [TypeError]. *)
Definition sum_over_range (py : python) (mse : list (list (list R)))
    : outcome (list (list R)) :=
  match py with
  | Python2 => mret (torch.sum_from_dim2 mse)
  | Python3 => Raises TypeError
  end.

(** [(recon[m][0] - targets[m]).pow(2)] for the item of key [m]. *)
Definition sq_error (targets : gmap string (list (list (list R))))
    (item : string * (list (list (list R)) * list (list (list R))))
    : outcome (list (list (list R))) :=
  tgt ← getitem targets item.1;
  mret (torch.pow2 (torch.sub item.2.1 tgt)).

(** The local function [time_avg]; [lengths] has been converted to a float
    tensor by then. *)
Definition time_avg (mask : list (list (list bool))) (lengths : list Z)
    (val : list (list R)) : list R :=
  let val := torch.masked_zero val (torch.invert (torch.squeeze_last mask)) in
  torch.div (torch.sum_dim0 (length lengths) val) (IZR <$> lengths).

Definition compute_metrics (py : python) (kld rec : R)
    (recon : list (string * (list (list (list R)) * list (list (list R)))))
    (targets : gmap string (list (list (list R))))
    (mask : list (list (list bool))) (lengths : list Z) (order : list nat)
    : outcome (list (string * metric)) :=
  errs ← mapM (sq_error targets) recon;
  mse ← py_sum errs;
  mse ← sum_over_range py mse;
  mse ← torch.index_select (time_avg mask lengths mse) order;
  mret [("kld_loss", MScalar kld); ("rec_loss", MScalar rec);
        ("mse", MList mse)].

(** Element of a tensor, [0] outside its shape (used in statements only). *)
Definition at3 (a : list (list (list R))) (t b d : nat) : R :=
  default 0 (row ← a !! t; cell ← row !! b; cell !! d).

Definition mask_at (mask : list (list (list bool))) (t b : nat) : bool :=
  default false (row ← mask !! t; cell ← row !! b; cell !! 0%nat).

(** [f 0 + f 1 + ... + f (n - 1)] *)
Definition sum_upto (n : nat) (f : nat → R) : R := np.sum (f <$> seq 0 n).

Definition shape3 {A : Type} (T B D : nat) (a : list (list (list A))) : Prop :=
  length a = T ∧
  Forall (λ row, length row = B ∧ Forall (λ cell, length cell = D) row) a.

(** [[f 0; f 1; ...; f (n - 1)]]: a well-shaped tensor is the tabulation
    of its elements. *)
Definition tabulate {A : Type} (n : nat) (f : nat → A) : list A :=
  f <$> seq 0 n.

(** The squared error of one modality at one element. *)
Definition sq_error_at (targets : gmap string (list (list (list R))))
    (item : string * (list (list (list R)) * list (list (list R))))
    (t b d : nat) : R :=
  (at3 item.2.1 t b d - at3 (default [] (targets !! item.1)) t b d) ^ 2.

(** The squared reconstruction error of sequence [b] at time-step [t],
    summed over feature dimensions and modalities. *)
Definition step_sq_error
    (recon : list (string * (list (list (list R)) * list (list (list R)))))
    (targets : gmap string (list (list (list R)))) (D t b : nat) : R :=
  sum_upto D (λ d, np.sum ((λ item, sq_error_at targets item t b d) <$> recon)).

(** The value the metric is meant to hold for sequence [b]. *)
Definition masked_time_average
    (recon : list (string * (list (list (list R)) * list (list (list R)))))
    (targets : gmap string (list (list (list R))))
    (mask : list (list (list bool))) (lengths : list Z) (T D b : nat) : R :=
  sum_upto T (λ t, if mask_at mask t b
                   then step_sq_error recon targets D t b else 0)
  / IZR (default 0%Z (lengths !! b)).

(** ** [SpiralsTrainer.plot_spiral] *)

(** The arguments of the [EllipseCollection] constructor as passed. *)
Record EllipseCollection : Type := mkEllipseCollection {
  widths : list R;
  heights : list R;
  angles : list R;
  units : string;
  facecolors : list string;
  alpha : R;
  offsets : list (R * R)
}.

(** The calls made on a matplotlib axis. Plotted coordinates may be [nan],
    represented by [None]. *)
Inductive axis_call : Type :=
| cla
| add_collection (ec : EllipseCollection)
| plot (xs ys : list (option R)) (fmt : string)
| set_xlim (lo hi : R)
| set_ylim (lo hi : R)
| set_title (metric : R)
| set_xlabel (spiral : nat).

(** [np.column_stack((xs, ys))] for one-axis arrays. *)
Definition column_stack (p : list R * list R) : outcome (list (R * R)) :=
  if bool_decide (length p.1 = length p.2) then mret (zip p.1 p.2)
  else Raises ValueError.

(** [axis.plot(xs, ys, fmt)]: [ValueError] when the two arrays differ in
    length. *)
Definition axis_plot (xs ys : list (option R)) (fmt : string)
    : outcome axis_call :=
  if bool_decide (length xs = length ys) then mret (plot xs ys fmt)
  else Raises ValueError.

(** [(np.isnan(a) != np.isnan(b)).any()] on arrays of equal length. *)
Definition isnan_differs (a b : list (option R)) : bool :=
  existsb (λ p : option R * option R,
             negb (bool_decide (is_Some p.1 ↔ is_Some p.2)))
          (zip a b).

(** The comparison of line 157 on arrays that may differ in length:
    numpy then raises [ValueError]; where it broadcasts instead (one array
    of length one), the plot of the two arrays that follows raises
    [ValueError]. *)
Definition isnan_differs_any (a b : list (option R)) : outcome bool :=
  if bool_decide (length a = length b) then mret (isnan_differs a b)
  else Raises ValueError.

(** The result lists the calls made on the axis when no call raises. *)
Definition plot_spiral (true data : list R * list R)
    (obsv : list (option R) * list (option R)) (pred rng : list R * list R)
    : outcome (list axis_call) :=
  offs ← column_stack pred;
  let ec := mkEllipseCollection (Rmult 1.96 <$> rng.1) (Rmult 1.96 <$> rng.2)
                                [0] "x" ["c"] 0.25 offs in
  truth ← axis_plot (Some <$> true.1) (Some <$> true.2) "b-";
  differs ← isnan_differs_any obsv.1 obsv.2;
  markers ← (if differs : bool
             then x_only ← axis_plot obsv.1 (Some <$> data.2) "<";
                  y_only ← axis_plot (Some <$> data.1) obsv.2 "v";
                  mret [x_only; y_only]
             else mret []);
  observed ← axis_plot obsv.1 obsv.2 "bo";
  predicted ← axis_plot (Some <$> pred.1) (Some <$> pred.2) "-";
  mret ([cla; add_collection ec; truth] ++ markers
        ++ [observed; predicted; set_xlim (-4) 4; set_ylim (-4) 4]).

(** The calls made on the axis by a run of [plot_spiral] in which no call
    raises. *)
Definition plot_spiral_calls (true data : list R * list R)
    (obsv : list (option R) * list (option R)) (pred rng : list R * list R)
    : list axis_call :=
  [cla;
   add_collection
     (mkEllipseCollection (Rmult 1.96 <$> rng.1) (Rmult 1.96 <$> rng.2)
                          [0] "x" ["c"] 0.25 (zip pred.1 pred.2));
   plot (Some <$> true.1) (Some <$> true.2) "b-"]
  ++ (if isnan_differs obsv.1 obsv.2
      then [plot obsv.1 (Some <$> data.2) "<";
            plot (Some <$> data.1) obsv.2 "v"]
      else [])
  ++ [plot obsv.1 obsv.2 "bo";
      plot (Some <$> pred.1) (Some <$> pred.2) "-";
      set_xlim (-4) 4; set_ylim (-4) 4].

(** The arrays can be plotted: the two coordinates of the truth, of the
    observations and of the predictions have the same number of steps, and
    so have the targets and the observations. *)
Definition plottable (true data : list R * list R)
    (obsv : list (option R) * list (option R)) (pred : list R * list R)
    : Prop :=
  length pred.1 = length pred.2 ∧ length true.1 = length true.2 ∧
  length obsv.1 = length obsv.2 ∧
  length data.1 = length obsv.1 ∧ length data.2 = length obsv.1.

(** One ellipse as drawn by the collection. *)
Record ellipse : Type := mkEllipse {
  center : R * R;
  width : R;
  height : R;
  angle : R
}.

(** The [k]-th ellipse of a collection: the [k]-th offset with the [k]-th
    width and height; the angle sequence is cycled. *)
Definition ellipse_at (ec : EllipseCollection) (k : nat) : option ellipse :=
  c ← offsets ec !! k;
  w ← widths ec !! k;
  h ← heights ec !! k;
  a ← angles ec !! (k mod length (angles ec))%nat;
  Some (mkEllipse c w h a).

(** The collections added to an axis, in order. *)
Definition drawn_collections (drawn : list axis_call) : list EllipseCollection :=
  omap (λ c, match c with add_collection ec => Some ec | _ => None end) drawn.

(** ** [SpiralsTrainer.visualize] *)

(** The [results] dict: per-sequence arrays of the targets (with their
    metadata rows), of the inputs ([None] where unobserved) and of the
    reconstructions (rows of [mean, std]). *)
Record Results : Type := mkResults {
  targets_metadata : list (list (list R));
  targets_x : list (list R);
  targets_y : list (list R);
  inputs_x : list (list (option R));
  inputs_y : list (list (option R));
  recon_x : list (list (list R));
  recon_y : list (list (list R))
}.

(** [arr[:, k]] *)
Definition column {A : Type} (arr : list (list A)) (k : nat) : outcome (list A) :=
  mapM (λ row, index row k) arr.

(** [a[-4:]] *)
Definition last4 {A : Type} (a : list A) : list A := drop (length a - 4) a.

(** [np.concatenate((np.argsort(metric)[:4], np.argsort(metric)[-4:][::-1]))] *)
Definition select_indices (argsort : list R → list nat) (metric : list R)
    : list nat :=
  take 4 (argsort metric) ++ reverse (last4 (argsort metric)).

(** What is drawn on one axis of the 4 x 2 grid. *)
Record panel : Type := mkPanel {
  axis_row : nat;
  axis_col : nat;
  calls : list axis_call
}.

Definition pair_at {A : Type} (xs ys : list A) (i : nat) : outcome (A * A) :=
  x ← index xs i; y ← index ys i; mret (x, y).

Definition column_pair (xs ys : list (list (list R))) (k i : nat)
    : outcome (list R * list R) :=
  ax ← index xs i; cx ← column ax k;
  ay ← index ys i; cy ← column ay k;
  mret (cx, cy).

(** The body of [for i in range(len(sel_idx))]. *)
Definition draw_panel (sel_idx : list nat) (sel_metric : list R)
    (sel_true sel_data : list (list R * list R))
    (sel_obsv : list (list (option R) * list (option R)))
    (sel_pred sel_rng : list (list R * list R)) (i : nat)
    : outcome panel :=
  true ← index sel_true i;
  data ← index sel_data i;
  obsv ← index sel_obsv i;
  pred ← index sel_pred i;
  rng ← index sel_rng i;
  drawn ← plot_spiral true data obsv pred rng;
  m ← index sel_metric i;
  s ← index sel_idx i;
  mret (mkPanel (i mod 4) (i / 4) (drawn ++ [set_title m; set_xlabel s])).

(** [argsort] is [np.argsort]. Creating, saving and showing the figure is
    not modelled; the result lists the axes drawn, in drawing order. *)
Definition visualize (argsort : list R → list nat) (results : Results)
    (metric : list R) : outcome (list panel) :=
  let sel_idx := select_indices argsort metric in
  sel_metric ← mapM (index metric) sel_idx;
  sel_true ← mapM (λ i, arr ← index (targets_metadata results) i;
                        mret (take 2 <$> arr)) sel_idx;
  sel_true ← mapM (λ arr, c0 ← column arr 0; c1 ← column arr 1;
                          mret (c0, c1)) sel_true;
  sel_data ← mapM (pair_at (targets_x results) (targets_y results)) sel_idx;
  sel_obsv ← mapM (pair_at (inputs_x results) (inputs_y results)) sel_idx;
  sel_pred ← mapM (column_pair (recon_x results) (recon_y results) 0) sel_idx;
  sel_rng ← mapM (column_pair (recon_x results) (recon_y results) 1) sel_idx;
  mapM (draw_panel sel_idx sel_metric sel_true sel_data sel_obsv
                   sel_pred sel_rng)
       (seq 0 (length sel_idx)).

(** The contract of [np.argsort] on a one-axis array without [nan]: the
    result lists every index once, by non-decreasing value. The order of
    indices of equal values is left open (the default sort is not stable). *)
Definition argsort_spec (argsort : list R → list nat) : Prop :=
  ∀ a : list R,
    argsort a ≡ₚ seq 0 (length a) ∧
    ∀ (i j p q : nat) (x y : R),
      (i ≤ j)%nat → argsort a !! i = Some p → argsort a !! j = Some q →
      a !! p = Some x → a !! q = Some y → x <= y.

(** A sort of the indices by value, one function meeting the contract. *)
Definition by_value (a : list R) : relation nat :=
  λ p q, default 0 (a !! p) <= default 0 (a !! q).

#[global] Instance by_value_dec (a : list R) (p q : nat) :
  Decision (by_value a p q) := Rle_dec _ _.

Definition merge_argsort (a : list R) : list nat :=
  merge_sort (by_value a) (seq 0 (length a)).

(** Orderings of a list of indices by the metric value at each index. *)
Definition ascending_by (metric : list R) (idx : list nat) : Prop :=
  ∀ (i j p q : nat) (x y : R),
    (i ≤ j)%nat → idx !! i = Some p → idx !! j = Some q →
    metric !! p = Some x → metric !! q = Some y → x <= y.




(** The per-sequence arrays cover [n] sequences, have the columns that
    [visualize] reads, and for each sequence the targets, the observations
    and the two columns of the reconstruction have the same number of
    steps. *)
Definition results_cover (n : nat) (r : Results) : Prop :=
  (n ≤ length (targets_metadata r))%nat ∧
  Forall (Forall (λ row : list R, (2 ≤ length row)%nat)) (targets_metadata r) ∧
  (n ≤ length (targets_x r))%nat ∧ (n ≤ length (targets_y r))%nat ∧
  (n ≤ length (inputs_x r))%nat ∧ (n ≤ length (inputs_y r))%nat ∧
  (n ≤ length (recon_x r))%nat ∧ (n ≤ length (recon_y r))%nat ∧
  Forall (Forall (λ row : list R, (2 ≤ length row)%nat)) (recon_x r) ∧
  Forall (Forall (λ row : list R, (2 ≤ length row)%nat)) (recon_y r) ∧
  Forall2 (λ ax ay : list (list R), length ax = length ay)
          (recon_x r) (recon_y r) ∧
  Forall2 (λ ox oy : list (option R), length ox = length oy)
          (inputs_x r) (inputs_y r) ∧
  Forall2 (λ (dx : list R) (ox : list (option R)), length dx = length ox)
          (targets_x r) (inputs_x r) ∧
  Forall2 (λ (dy : list R) (ox : list (option R)), length dy = length ox)
          (targets_y r) (inputs_x r).

(** Results for [n] copies of one two-step sequence, observed at its first
    step only. *)
Definition uniform_results (n : nat) : Results :=
  mkResults (replicate n [[0; 1; 0]; [1; 0; 0]])
            (replicate n [0; 1]) (replicate n [1; 0])
            (replicate n [Some 0; None]) (replicate n [Some 1; None])
            (replicate n [[0.1; 0.5]; [0.9; 0.5]])
            (replicate n [[1.1; 0.5]; [0.2; 0.5]]).

(** ** [scripts/test_spacy.py] *)

(** [print(a, b, c)]: the arguments separated by single spaces, one line. *)
Definition print3 (a b c : string) : string := a +:+ " " +:+ b +:+ " " +:+ c.

(** The module-level loops. [tokens] is the parsed document, [text] and
    [similarity] the token attribute and method, [str] the conversion of a
    float by [print]. The result is the list of lines written. *)
Definition test_spacy {Token : Type} (text : Token → string)
    (similarity : Token → Token → R) (str : R → string)
    (tokens : list Token) : list string :=
  foldl (λ out token1,
           foldl (λ out token2,
                    out ++ [print3 (text token1) (text token2)
                                   (str (similarity token1 token2))])
                 out tokens)
        [] tokens.

(** ** Further notions used in the statements *)

(** Some item of [metrics] assigns the summary key [k]. *)
Definition written (metrics : list (string * metric)) (k : string) : Prop :=
  ∃ item, item ∈ metrics ∧ k ∈ writes item.

(** No metric key is a list-valued metric key suffixed with ["_std"]. *)
Definition collision_free (metrics : list (string * metric)) : Prop :=
  ∀ item item' : string * metric,
    item ∈ metrics → item' ∈ metrics →
    (∃ l, item'.2 = MList l) → item.1 ≠ item'.1 +:+ "_std".

(** ** [SpiralsTrainer.build_model] *)

(** The local table [dims]. *)
Definition spiral_dims : gmap string Z :=
  {["spiral-x" := 1%Z; "spiral-y" := 1%Z]}.

(** The generator [(dims[m] for m in args.modalities)] as the constructor
    sees it when it consumes it in full: the dimensions in order, or the
    [KeyError] of the first modality that is not in the table. *)
Definition build_model_dims (mods : list string) : outcome (list Z) :=
  mapM (getitem spiral_dims) mods.

(** [constructor] receives the modalities, the dimensions, [z_dim=5] and
    [h_dim=20]; the device and the extra model arguments are passed
    through unchanged and left out. *)
Definition build_model {M : Type}
    (constructor : list string → list Z → Z → Z → M) (args : Args)
    : outcome M :=
  ds ← build_model_dims (modalities args);
  mret (constructor (modalities args) ds 5%Z 20%Z).

(** Plotting one sequence on its own: the arrays of sequence [s] as
    [visualize] extracts them, passed to [plot_spiral]. *)
Definition sequence_truth (results : Results) (s : nat)
    : outcome (list R * list R) :=
  arr ← index (targets_metadata results) s;
  c0 ← column (take 2 <$> arr) 0;
  c1 ← column (take 2 <$> arr) 1;
  mret (c0, c1).

Definition sequence_plot (results : Results) (s : nat)
    : outcome (list axis_call) :=
  true ← sequence_truth results s;
  data ← pair_at (targets_x results) (targets_y results) s;
  obsv ← pair_at (inputs_x results) (inputs_y results) s;
  pred ← column_pair (recon_x results) (recon_y results) 0 s;
  rng ← column_pair (recon_x results) (recon_y results) 1 s;
  plot_spiral true data obsv pred rng.

(** The format strings of the [plot] calls made on an axis, in order. *)
Definition plot_formats (drawn : list axis_call) : list string :=
  omap (λ c, match c with plot _ _ fmt => Some fmt | _ => None end) drawn.

(** * Properties *)

(** ** Outcomes and sequence helpers *)

Lemma mapM_Returns {A B : Type} (f : A → outcome B) (l : list A) (k : list B) :
  Forall2 (λ x y, f x = Returns y) l k → mapM f l = Returns k.
Proof.
  induction 1 as [|x y l k Hxy _ IH]; [done|].
  simpl. rewrite Hxy. simpl. by rewrite IH.
Qed.

Lemma mapM_Returns_fmap {A B : Type} (f : A → outcome B) (g : A → B)
    (l : list A) :
  Forall (λ x, f x = Returns (g x)) l → mapM f l = Returns (g <$> l).
Proof.
  intros H. apply mapM_Returns. induction H; constructor; auto.
Qed.

Lemma index_Returns {A : Type} (l : list A) (i : nat) (x : A) :
  l !! i = Some x → index l i = Returns x.
Proof. unfold index. by intros ->. Qed.

Lemma getitem_Returns {V : Type} (d : gmap string V) (k : string) (v : V) :
  d !! k = Some v → getitem d k = Returns v.
Proof. unfold getitem. by intros ->. Qed.

Lemma getitem_Raises {V : Type} (d : gmap string V) (k : string) :
  d !! k = None → getitem d k = Raises (KeyError k).
Proof. unfold getitem. by intros ->. Qed.

Lemma index_Returns_inv {A : Type} (l : list A) (i : nat) (x : A) :
  index l i = Returns x → l !! i = Some x.
Proof. unfold index. destruct (l !! i); [|done]. by intros [= ->]. Qed.

Lemma bind_Returns_inv {A B : Type} (c : outcome A) (k : A → outcome B)
    (b : B) :
  c ≫= k = Returns b → ∃ a, c = Returns a ∧ k a = Returns b.
Proof. destruct c as [a|e]; [|done]. simpl. eauto. Qed.

Lemma mapM_Returns_inv {A B : Type} (f : A → outcome B) (l : list A)
    (k : list B) :
  mapM f l = Returns k → Forall2 (λ x y, f x = Returns y) l k.
Proof.
  revert k. induction l as [|x l IH]; intros k Hk; simpl in Hk.
  - injection Hk as <-. constructor.
  - destruct (f x) as [y|e] eqn:Hx; [|done]. simpl in Hk.
    destruct (mapM f l) as [k'|e]; [|done]. simpl in Hk.
    injection Hk as <-. constructor; auto.
Qed.

Lemma mapM_Returns_lookup {A B : Type} (f : A → outcome B) (l : list A)
    (k : list B) (i : nat) (x : A) :
  mapM f l = Returns k → l !! i = Some x →
  ∃ y, k !! i = Some y ∧ f x = Returns y.
Proof.
  intros Hk Hx. apply mapM_Returns_inv in Hk.
  destruct (Forall2_lookup_l _ _ _ _ _ Hk Hx) as (y & Hy & Hf). eauto.
Qed.

Lemma mapM_Returns_Forall2 {A B : Type} (f : A → outcome B)
    (P : A → B → Prop) (l : list A) :
  Forall (λ x, ∃ y, f x = Returns y ∧ P x y) l →
  ∃ k, mapM f l = Returns k ∧ Forall2 P l k.
Proof.
  induction 1 as [|x l (y & Hy & HP) _ (k & Hk & HF)].
  - exists []. by split.
  - exists (y :: k). simpl. rewrite Hy. simpl. rewrite Hk. simpl.
    split; [done|by constructor].
Qed.

Lemma mapM_Returns_exists {A B : Type} (f : A → outcome B) (l : list A) :
  Forall (λ x, ∃ y, f x = Returns y) l →
  ∃ k, mapM f l = Returns k ∧ Forall2 (λ x y, f x = Returns y) l k.
Proof.
  intros H. apply mapM_Returns_Forall2.
  eapply Forall_impl; [exact H|]. intros x [y Hy]. eauto.
Qed.

Lemma mapM_Raises {A B : Type} (f : A → outcome B) (pre post : list A)
    (x : A) (e : exn) :
  Forall (λ a, ∃ b, f a = Returns b) pre → f x = Raises e →
  mapM f (pre ++ x :: post) = Raises e.
Proof.
  intros Hpre Hx. induction Hpre as [|a pre [b Hb] _ IH]; simpl.
  - by rewrite Hx.
  - rewrite Hb. simpl. by rewrite IH.
Qed.

Lemma mapM_Raises_some {A B : Type} (f : A → outcome B) (l : list A)
    (e : exn) :
  Forall (λ x, (∃ y, f x = Returns y) ∨ f x = Raises e) l →
  Exists (λ x, f x = Raises e) l →
  mapM f l = Raises e.
Proof.
  induction 1 as [|x l Hx _ IH]; intros Hex; [by apply Exists_nil in Hex|].
  simpl. destruct Hx as [[y Hy]|Hx].
  - rewrite Hy. simpl. rewrite IH; [done|].
    apply Exists_cons in Hex as [Hex|Hex]; [congruence|done].
  - by rewrite Hx.
Qed.

Lemma fmap_Forall2_eq {A A' B : Type} (f : A → B) (g : A' → B)
    (l : list A) (l' : list A') :
  Forall2 (λ x y, f x = g y) l l' → f <$> l = g <$> l'.
Proof.
  induction 1 as [|x y l l' Hxy _ IH]; [done|].
  cbn [fmap list_fmap]. by f_equal.
Qed.

Lemma length_append (s t : string) :
  String.length (s +:+ t) = (String.length s + String.length t)%nat.
Proof. induction s as [|c s IH]; simpl; [done|]. by rewrite IH. Qed.

Lemma append_cancel_r (s1 s2 t : string) : s1 +:+ t = s2 +:+ t → s1 = s2.
Proof.
  revert s2. induction s1 as [|c s1 IH]; intros [|d s2] H.
  - done.
  - apply (f_equal String.length) in H.
    rewrite (length_append "" t), (length_append (String d s2) t) in H.
    simpl in H. lia.
  - apply (f_equal String.length) in H.
    rewrite (length_append "" t), (length_append (String c s1) t) in H.
    simpl in H. lia.
  - change (String c (s1 +:+ t) = String d (s2 +:+ t)) in H.
    injection H as -> H. f_equal. by apply IH.
Qed.

(** ** numpy reductions against the textbook definitions *)

Lemma np_mean_arithmetic_mean (a : list R) : np.mean a = arithmetic_mean a.
Proof. reflexivity. Qed.

Lemma sum_sq_dev_fold (mu : R) (a : list R) :
  np.sum (map (λ x, Rabs (x - mu) ^ 2) a)
  = foldr (λ x acc, (x - mu) ^ 2 + acc) 0 a.
Proof.
  unfold np.sum. induction a as [|x a IH]; [done|].
  cbn [map foldr]. rewrite IH. by rewrite pow2_abs.
Qed.

Lemma np_std_population_std (a : list R) : np.std a = population_std a.
Proof.
  unfold np.std, population_std. f_equal.
  unfold np.mean at 1. rewrite sum_sq_dev_fold, length_map.
  reflexivity.
Qed.

(** ** [summarize_metrics] *)

Lemma summarize_loop_app (pre post : list (string * metric)) (n : Z) :
  summarize_loop (pre ++ post) n
  = foldl (summarize_step n) (summarize_loop pre n) post.
Proof. unfold summarize_loop. apply foldl_app. Qed.

(** An item leaves alone every summary key it does not write. *)
Lemma summarize_step_other (n : Z) (s : gmap string R)
    (item : string * metric) (k : string) :
  k ∉ writes item → summarize_step n s item !! k = s !! k.
Proof.
  destruct item as [key [l|x]]; unfold writes; simpl; intros Hk.
  - rewrite !lookup_insert_ne; [done| |]; set_solver.
  - rewrite lookup_insert_ne; [done|]. set_solver.
Qed.

Lemma summarize_fold_other (n : Z) (items : list (string * metric))
    (s : gmap string R) (k : string) :
  Forall (λ item, k ∉ writes item) items →
  foldl (summarize_step n) s items !! k = s !! k.
Proof.
  intros H. revert s. induction H as [|item items Hk _ IH]; intros s; [done|].
  simpl. rewrite IH. by apply summarize_step_other.
Qed.

(** Every key written by an item is present after the item. *)
Lemma summarize_step_writes (n : Z) (s : gmap string R)
    (item : string * metric) (k : string) :
  k ∈ writes item → is_Some (summarize_step n s item !! k).
Proof.
  destruct item as [key [l|x]]; unfold writes; simpl; intros Hk;
    rewrite ?lookup_insert; repeat case_decide; eauto;
    exfalso; revert Hk; rewrite ?elem_of_cons, elem_of_nil; naive_solver.
Qed.

Lemma summarize_step_keeps (n : Z) (s : gmap string R)
    (item : string * metric) (k : string) :
  is_Some (s !! k) → is_Some (summarize_step n s item !! k).
Proof.
  intros Hs. destruct (decide (k ∈ writes item)) as [Hin|Hout].
  - by apply summarize_step_writes.
  - by rewrite summarize_step_other.
Qed.

Lemma summarize_fold_keeps (n : Z) (items : list (string * metric))
    (s : gmap string R) (k : string) :
  is_Some (s !! k) → is_Some (foldl (summarize_step n) s items !! k).
Proof.
  revert s. induction items as [|item items IH]; intros s Hs; [done|].
  simpl. apply IH. by apply summarize_step_keeps.
Qed.

Lemma summarize_loop_written (n : Z) (metrics : list (string * metric))
    (item : string * metric) (k : string) :
  item ∈ metrics → k ∈ writes item →
  is_Some (summarize_loop metrics n !! k).
Proof.
  intros Hin Hk. apply list_elem_of_split in Hin as (pre & post & ->).
  rewrite summarize_loop_app. simpl.
  apply summarize_fold_keeps. by apply summarize_step_writes.
Qed.

Lemma summarize_metrics_returns (metrics : list (string * metric)) (n : Z) :
  printable metrics →
  summarize_metrics metrics n = Returns (summarize_loop metrics n).
Proof.
  intros Hp. unfold printable, printed_keys in Hp.
  repeat match goal with
  | H : Forall _ (_ :: _) |- _ =>
      apply Forall_cons in H as [(? & ? & ?) H]
  end.
  unfold summarize_metrics.
  repeat match goal with
  | Hi : ?item ∈ metrics, Hw : ?k ∈ writes ?item |- _ =>
      destruct (summarize_loop_written n metrics item k Hi Hw) as [? ?];
      clear Hw
  end.
  repeat (erewrite getitem_Returns by eassumption; simpl).
  reflexivity.
Qed.

(** The item [(key, val)] of a dict is followed by no item with its key. *)
Lemma later_keys_differ (pre post : list (string * metric))
    (key : string) (val : metric) :
  NoDup ((pre ++ (key, val) :: post).*1) →
  Forall (λ item, item.1 ≠ key) post.
Proof.
  rewrite fmap_app, fmap_cons. simpl. intros Hnd.
  apply NoDup_app in Hnd as (_ & _ & Hnd). apply NoDup_cons in Hnd as [Hk _].
  apply Forall_forall. intros item Hin Heq. apply Hk. rewrite <- Heq.
  apply list_elem_of_fmap. eauto.
Qed.

(** C1, as amended: for a non-empty list-valued metric [key] and a nonzero
    [n_timesteps], the returned summary holds the arithmetic mean of the
    list under [key] and its population standard deviation under
    [key + "_std"], provided no item iterated later overwrites these two
    entries: no later key is [key + "_std"], and no later list-valued key
    [k] has [k + "_std" = key]. *)
Theorem summarize_metrics_list (pre post : list (string * metric))
    (key : string) (val : list R) (n_timesteps : Z) :
  let metrics := pre ++ (key, MList val) :: post in
  n_timesteps ≠ 0%Z →
  val ≠ [] →
  NoDup (metrics.*1) →
  printable metrics →
  Forall (λ item, item.1 ≠ key +:+ "_std") post →
  Forall (λ item, ∀ l, item.2 = MList l → item.1 +:+ "_std" ≠ key) post →
  ∃ summary,
    summarize_metrics metrics n_timesteps = Returns summary ∧
    summary !! key = Some (arithmetic_mean val) ∧
    summary !! (key +:+ "_std") = Some (population_std val).
Proof.
  intros metrics _ _ Hnd Hp Hstd Hkey.
  pose proof (later_keys_differ _ _ _ _ Hnd) as Hlater.
  exists (summarize_loop metrics n_timesteps).
  split; [by apply summarize_metrics_returns|].
  unfold metrics. rewrite summarize_loop_app. cbn [foldl].
  assert (key ≠ key +:+ "_std") as Hself.
  { intros H. apply (f_equal String.length) in H.
    rewrite length_append in H. simpl in H. lia. }
  split.
  - rewrite summarize_fold_other.
    + simpl. rewrite lookup_insert_ne by done.
      by rewrite lookup_insert_eq, np_mean_arithmetic_mean.
    + rewrite Forall_forall in Hlater, Hkey |- *. intros [k v] Hin.
      specialize (Hlater _ Hin). specialize (Hkey _ Hin). simpl in *.
      unfold writes. destruct v as [l|x]; simpl;
        rewrite ?elem_of_cons, elem_of_nil; naive_solver.
  - rewrite summarize_fold_other.
    + simpl. by rewrite lookup_insert_eq, np_std_population_std.
    + rewrite Forall_forall in Hlater, Hstd |- *. intros [k v] Hin.
      specialize (Hlater _ Hin). specialize (Hstd _ Hin). simpl in *.
      unfold writes. destruct v as [l|x]; simpl;
        rewrite ?elem_of_cons, elem_of_nil; intros H;
        repeat (destruct H as [H|H]); try congruence; try done.
      apply Hlater. symmetry. by apply (append_cancel_r _ _ "_std").
Qed.

(** C3, as amended: for a scalar metric [key] and a nonzero [n_timesteps],
    the returned summary holds the value divided by [n_timesteps] under
    [key], provided no list-valued key [k] iterated later has
    [k + "_std" = key]. *)
Theorem summarize_metrics_scalar (pre post : list (string * metric))
    (key : string) (val : R) (n_timesteps : Z) :
  let metrics := pre ++ (key, MScalar val) :: post in
  n_timesteps ≠ 0%Z →
  NoDup (metrics.*1) →
  printable metrics →
  Forall (λ item, ∀ l, item.2 = MList l → item.1 +:+ "_std" ≠ key) post →
  ∃ summary,
    summarize_metrics metrics n_timesteps = Returns summary ∧
    summary !! key = Some (val / IZR n_timesteps).
Proof.
  intros metrics _ Hnd Hp Hkey.
  pose proof (later_keys_differ _ _ _ _ Hnd) as Hlater.
  exists (summarize_loop metrics n_timesteps).
  split; [by apply summarize_metrics_returns|].
  unfold metrics. rewrite summarize_loop_app. cbn [foldl].
  rewrite summarize_fold_other.
  - simpl. by rewrite lookup_insert_eq.
  - rewrite Forall_forall in Hlater, Hkey |- *. intros [k v] Hin.
    specialize (Hlater _ Hin). specialize (Hkey _ Hin). simpl in *.
    unfold writes. destruct v as [l|x]; simpl;
      rewrite ?elem_of_cons, elem_of_nil; naive_solver.
Qed.

Lemma population_std_1_3 : population_std [1; 3] = 1.
Proof.
  unfold population_std, arithmetic_mean. cbn [foldr length].
  replace (INR 2) with 2 by (simpl; lra).
  replace (_ / 2) with 1 by field.
  apply sqrt_1.
Qed.

Ltac solve_NoDup :=
  cbn; repeat (apply NoDup_cons; split; [set_solver|]); apply NoDup_nil_2.

Ltac solve_elem_of :=
  repeat first [apply list_elem_of_here | apply list_elem_of_further].

Lemma written_here (k : string) (x : string * metric)
    (l : list (string * metric)) :
  k ∈ writes x → ∃ item, item ∈ x :: l ∧ k ∈ writes item.
Proof. intros H. exists x. split; [apply list_elem_of_here|done]. Qed.

Lemma written_further (k : string) (x : string * metric)
    (l : list (string * metric)) :
  (∃ item, item ∈ l ∧ k ∈ writes item) →
  ∃ item, item ∈ x :: l ∧ k ∈ writes item.
Proof.
  intros (item & Hin & Hk). exists item.
  split; [by apply list_elem_of_further|done].
Qed.

Ltac find_writer :=
  first [ apply written_here; solve [unfold writes; simpl; set_solver]
        | apply written_further; find_writer ].

Ltac solve_printable :=
  unfold printable, printed_keys;
  repeat apply Forall_cons_2; try apply Forall_nil_2; find_writer.

Lemma summarize_metrics_list_witness :
  ∃ summary,
    summarize_metrics [("kld_loss", MScalar 6); ("rec_loss", MScalar 4);
                       ("mse", MList [1; 3])] 2 = Returns summary ∧
    summary !! "mse" = Some (arithmetic_mean [1; 3]) ∧
    summary !! "mse_std" = Some (population_std [1; 3]).
Proof.
  apply (summarize_metrics_list
           [("kld_loss", MScalar 6); ("rec_loss", MScalar 4)] []
           "mse" [1; 3] 2).
  - done.
  - done.
  - solve_NoDup.
  - solve_printable.
  - apply Forall_nil_2.
  - apply Forall_nil_2.
Defined.

(** C1 as stated fails when a later item has the key [key + "_std"]: the
    summary then holds that item's average, not the standard deviation. *)
Lemma summarize_metrics_list_overwritten :
  let metrics := [("kld_loss", MScalar 6); ("rec_loss", MScalar 4);
                  ("mse", MList [1; 3]); ("mse_std", MScalar 8)] in
  NoDup (metrics.*1) ∧ ("mse", MList [1; 3]) ∈ metrics ∧
  ∃ summary,
    summarize_metrics metrics 2 = Returns summary ∧
    summary !! ("mse" +:+ "_std") = Some 4 ∧
    summary !! ("mse" +:+ "_std") ≠ Some (population_std [1; 3]).
Proof.
  intros metrics. split; [solve_NoDup|]. split; [unfold metrics; solve_elem_of|].
  exists (summarize_loop metrics 2).
  split; [apply summarize_metrics_returns; solve_printable|].
  assert (summarize_loop metrics 2 !! "mse_std" = Some 4) as Hlookup.
  { unfold summarize_loop, metrics. cbn [foldl summarize_step].
    rewrite lookup_insert_eq. f_equal. lra. }
  change ("mse" +:+ "_std") with "mse_std". split; [done|].
  rewrite Hlookup, population_std_1_3. intros [=H]. lra.
Qed.

Lemma summarize_metrics_scalar_witness :
  ∃ summary,
    summarize_metrics [("kld_loss", MScalar 6); ("rec_loss", MScalar 4);
                       ("mse", MList [1; 3])] 2 = Returns summary ∧
    summary !! "kld_loss" = Some (6 / IZR 2).
Proof.
  apply (summarize_metrics_scalar
           [] [("rec_loss", MScalar 4); ("mse", MList [1; 3])]
           "kld_loss" 6 2).
  - done.
  - solve_NoDup.
  - solve_printable.
  - repeat apply Forall_cons_2; try apply Forall_nil_2; simpl;
      intros l _; discriminate.
Defined.

(** C3 as stated fails when a later list-valued key [k] has
    [k + "_std" = key]: the summary then holds the standard deviation of
    that list, not the scalar divided by [n_timesteps]. *)
Lemma summarize_metrics_scalar_overwritten :
  let metrics := [("mse_std", MScalar 8); ("kld_loss", MScalar 6);
                  ("rec_loss", MScalar 4); ("mse", MList [1; 3])] in
  NoDup (metrics.*1) ∧ ("mse_std", MScalar 8) ∈ metrics ∧
  ∃ summary,
    summarize_metrics metrics 2 = Returns summary ∧
    summary !! "mse_std" = Some 1 ∧
    summary !! "mse_std" ≠ Some (8 / IZR 2).
Proof.
  intros metrics. split; [solve_NoDup|]. split; [unfold metrics; solve_elem_of|].
  exists (summarize_loop metrics 2).
  split; [apply summarize_metrics_returns; solve_printable|].
  assert (summarize_loop metrics 2 !! "mse_std" = Some 1) as Hlookup.
  { unfold summarize_loop, metrics. cbn [foldl summarize_step].
    change ("mse" +:+ "_std") with "mse_std".
    rewrite lookup_insert_eq, np_std_population_std.
    by rewrite population_std_1_3. }
  split; [done|]. rewrite Hlookup. intros [=H]. lra.
Qed.

(** ** [default_args] *)

Lemma pydiv_Returns (x y : R) : y ≠ 0 → pydiv x y = Returns (x / y).
Proof. intros Hy. unfold pydiv. by destruct (Req_dec_T y 0). Qed.

Lemma pydiv_zero (x : R) : pydiv x 0 = Raises ZeroDivisionError.
Proof. unfold pydiv. by destruct (Req_dec_T 0 0). Qed.

Lemma modalities_length (args : Args) (m : string) :
  m ∈ modalities args → INR (length (modalities args)) ≠ 0.
Proof.
  intros Hin. apply not_0_INR. destruct (modalities args); simpl; [|lia].
  by apply elem_of_nil in Hin.
Qed.

Section default_rec_mults.
Variable dims : gmap string Z.
Variable args : Args.
Variable corrupt_mult : R.

Abbreviation mult := (default_rec_mult dims args corrupt_mult).

Lemma rec_mult_entry_Returns (acc : gmap string R) (m : string) (d : Z) :
  m ∈ modalities args → dims !! m = Some d → d ≠ 0%Z →
  rec_mult_entry dims args corrupt_mult acc m = Returns (<[m := mult m]> acc).
Proof.
  intros Hin Hd Hnz. unfold rec_mult_entry, default_rec_mult.
  rewrite (getitem_Returns _ _ _ Hd), Hd. simpl.
  rewrite pydiv_Returns by (by apply not_0_IZR). simpl.
  rewrite pydiv_Returns by (by apply (modalities_length _ m)).
  reflexivity.
Qed.

Lemma rec_mults_comprehension_Returns (ms : list string)
    (acc : gmap string R) :
  Forall (λ m, m ∈ modalities args ∧
               ∃ d, dims !! m = Some d ∧ d ≠ 0%Z) ms →
  rec_mults_comprehension dims args corrupt_mult acc ms
  = Returns (foldl (λ acc m, <[m := mult m]> acc) acc ms).
Proof.
  intros H. revert acc.
  induction H as [|m ms (Hin & d & Hd & Hnz) _ IH]; intros acc; [done|].
  simpl. rewrite (rec_mult_entry_Returns _ _ d) by done. simpl. apply IH.
Qed.

Lemma comprehension_lookup (ms : list string) (acc : gmap string R)
    (m : string) :
  foldl (λ acc m, <[m := mult m]> acc) acc ms !! m
  = if decide (m ∈ ms) then Some (mult m) else acc !! m.
Proof.
  revert acc. induction ms as [|m' ms IH]; intros acc; cbn [foldl].
  - rewrite decide_False; [done|]. apply not_elem_of_nil.
  - rewrite IH. destruct (decide (m ∈ ms)) as [Hin|Hout].
    + rewrite decide_True; [done|]. by apply list_elem_of_further.
    + destruct (decide (m = m')) as [->|Hne].
      * rewrite lookup_insert_eq, decide_True; [done|].
        apply list_elem_of_here.
      * rewrite lookup_insert_ne by done. rewrite decide_False; [done|].
        rewrite elem_of_cons. naive_solver.
Qed.

(** The comprehension can raise [KeyError], or [ZeroDivisionError] at a
    zero dimension, and nothing else. *)
Lemma rec_mults_comprehension_no_zero_division (ms : list string)
    (acc : gmap string R) :
  Forall (λ m, m ∈ modalities args ∧ dims !! m ≠ Some 0%Z) ms →
  rec_mults_comprehension dims args corrupt_mult acc ms
  ≠ Raises ZeroDivisionError.
Proof.
  intros H. revert acc.
  induction H as [|m ms [Hin Hnz] _ IH]; intros acc; [done|].
  simpl. unfold rec_mult_entry, getitem.
  destruct (dims !! m) as [d|] eqn:Hd; simpl; [|done].
  rewrite pydiv_Returns; simpl.
  - rewrite pydiv_Returns by (by apply (modalities_length _ m)).
    simpl. apply IH.
  - apply not_0_IZR. congruence.
Qed.
End default_rec_mults.




(** C9, as amended: if the uniform corruption fraction is below [1], the
    denominator [1 - u] is nonzero and the division by it returns; the
    computation of the default [rec_mults] as a whole does not divide by
    zero if moreover no modality has dimension [0]. *)
Theorem default_args_no_zero_division (dims : gmap string Z) (args : Args) :
  corrupt_uniform args < 1 →
  1 - corrupt_uniform args ≠ 0 ∧
  pydiv 1 (1 - corrupt_uniform args)
    = Returns (1 / (1 - corrupt_uniform args)) ∧
  ((∀ m, m ∈ modalities args → dims !! m ≠ Some 0%Z) →
   default_args dims args ≠ Raises ZeroDivisionError).
Proof.
  intros Hu. assert (1 - corrupt_uniform args ≠ 0) as Hden by lra.
  split; [done|]. split; [by apply pydiv_Returns|].
  intros Hdims. unfold default_args. destruct (rec_mults args); [done|].
  rewrite pydiv_Returns by done. simpl.
  match goal with
  | |- context [rec_mults_comprehension ?d ?a ?c ?acc ?ms] =>
      pose proof (rec_mults_comprehension_no_zero_division d a c ms acc) as Hc;
      destruct (rec_mults_comprehension d a c acc ms) as [r|e]; [done|]
  end.
  simpl. intros [= ->]. apply Hc; [|done]. apply Forall_forall. auto.
Qed.

Lemma default_args_no_zero_division_witness :
  let args := mkArgs ["spiral-x"] None {["uniform" := 0.5]} []
                     "data" "train" "test" in
  let dims : gmap string Z := {["spiral-x" := 1%Z]} in
  1 - corrupt_uniform args ≠ 0 ∧
  pydiv 1 (1 - corrupt_uniform args)
    = Returns (1 / (1 - corrupt_uniform args)) ∧
  ((∀ m, m ∈ modalities args → dims !! m ≠ Some 0%Z) →
   default_args dims args ≠ Raises ZeroDivisionError).
Proof.
  intros args dims. apply (default_args_no_zero_division dims args).
  unfold corrupt_uniform, args. simpl. rewrite lookup_singleton_eq. simpl. lra.
Defined.

(** C9 as stated fails: with a uniform corruption fraction below [1] the
    computation still divides by zero at a modality of dimension [0]. *)
Lemma default_args_zero_dimension :
  let args := mkArgs ["spiral-x"] None ∅ [] "data" "train" "test" in
  let dims : gmap string Z := {["spiral-x" := 0%Z]} in
  corrupt_uniform args < 1 ∧
  default_args dims args = Raises ZeroDivisionError.
Proof.
  intros args dims.
  assert (corrupt_uniform args = 0) as Hu.
  { unfold corrupt_uniform, args. simpl. by rewrite lookup_empty. }
  split; [lra|].
  unfold default_args, args. simpl. fold args.
  rewrite pydiv_Returns by lra. simpl.
  unfold rec_mult_entry, dims. rewrite (getitem_Returns _ _ 0%Z).
  - simpl. by rewrite pydiv_zero.
  - apply lookup_singleton_eq.
Qed.

(** ** [load_data] *)

(** C6: [load_data] calls [normalize_] exactly when [args.normalize] is
    non-empty; it then normalizes the test data first, with the training
    data as loaded for reference, and the training data second; otherwise
    both datasets are returned as loaded. *)
Theorem load_data_normalization {D : Type} (cls : dataset_class D)
    (abspath : string → string) (mods : list string) (args : Args) :
  let dir := abspath (data_dir args) in
  let train0 := SpiralsDataset cls mods dir (train_subdir args) in
  let test0 := SpiralsDataset cls mods dir (test_subdir args) in
  let h := load_data cls abspath mods args in
  (normalize args ≠ [] →
   normalize_calls h = [(test_data, Some train_data); (train_data, None)] ∧
   at_test h = normalize_ cls (normalize args) (Some train0) test0 ∧
   at_train h = normalize_ cls (normalize args) None train0) ∧
  (normalize args = [] →
   normalize_calls h = [] ∧ at_train h = train0 ∧ at_test h = test0).
Proof.
  intros dir train0 test0 h. subst h. unfold load_data. fold dir.
  split; intros Hn.
  - rewrite bool_decide_eq_true_2; [done|].
    destruct (normalize args); [done|simpl; lia].
  - rewrite bool_decide_eq_false_2; [done|]. rewrite Hn. simpl. lia.
Qed.

Lemma load_data_normalization_witness :
  let cls : dataset_class (list string) :=
    {| SpiralsDataset := λ mods dir subdir, [subdir];
       normalize_ := λ mods ref self,
         self ++ "normalized by" :: default self ref |} in
  let args := mkArgs ["spiral-x"] None ∅ ["spiral-x"] "data" "train" "test" in
  let h := load_data cls (λ path, path) ["spiral-x"] args in
  normalize_calls h = [(test_data, Some train_data); (train_data, None)] ∧
  at_test h = ["test"; "normalized by"; "train"] ∧
  at_train h = ["train"; "normalized by"; "train"].
Proof.
  intros cls args h.
  apply (proj1 (load_data_normalization cls (λ path, path) ["spiral-x"] args)).
  discriminate.
Defined.

(** ** [test_spacy.py] *)

Lemma print_loop_inner {A : Type} (line : A → string) (tokens : list A)
    (out : list string) :
  foldl (λ out token2, out ++ [line token2]) out tokens
  = out ++ (line <$> tokens).
Proof.
  revert out. induction tokens as [|t tokens IH]; intros out; simpl.
  - by rewrite app_nil_r.
  - rewrite IH. by rewrite <- app_assoc.
Qed.

Lemma print_loop_outer {A : Type} (line : A → A → string)
    (tokens ts : list A) (out : list string) :
  foldl (λ out token1,
           foldl (λ out token2, out ++ [line token1 token2]) out tokens)
        out ts
  = out ++ concat ((λ token1, line token1 <$> tokens) <$> ts).
Proof.
  revert out. induction ts as [|t ts IH]; intros out; simpl.
  - by rewrite app_nil_r.
  - rewrite IH, print_loop_inner. by rewrite <- app_assoc.
Qed.

Lemma concat_lookup_rows {A : Type} (n : nat) (rows : list (list A))
    (i j : nat) :
  Forall (λ row, length row = n) rows → (j < n)%nat →
  concat rows !! (i * n + j)%nat = row ← rows !! i; row !! j.
Proof.
  intros Hrows Hj. revert i.
  induction Hrows as [|row rows Hlen _ IH]; intros i; [done|].
  destruct i as [|i]; simpl.
  - apply lookup_app_l. lia.
  - rewrite lookup_app_r by lia.
    replace (n + i * n + j - length row)%nat with (i * n + j)%nat by lia.
    apply IH.
Qed.

Lemma length_concat_rows {A : Type} (n : nat) (rows : list (list A)) :
  Forall (λ row, length row = n) rows →
  length (concat rows) = (length rows * n)%nat.
Proof.
  induction 1 as [|row rows Hlen _ IH]; [done|].
  simpl. rewrite length_app, IH. lia.
Qed.

(** C7: for [n] tokens the script prints [n * n] lines; line [i * n + j]
    is the text of token [i], a space, the text of token [j], a space and
    their similarity as [print] writes it, so every ordered pair, a token
    with itself included, has its line. *)
Theorem test_spacy_prints_all_pairs {Token : Type} (text : Token → string)
    (similarity : Token → Token → R) (str : R → string)
    (tokens : list Token) :
  let n := length tokens in
  let out := test_spacy text similarity str tokens in
  length out = (n * n)%nat ∧
  ∀ (i j : nat) (token1 token2 : Token),
    tokens !! i = Some token1 → tokens !! j = Some token2 →
    out !! (i * n + j)%nat
    = Some (text token1 +:+ " " +:+ text token2 +:+ " "
            +:+ str (similarity token1 token2)).
Proof.
  intros n out. subst out. unfold test_spacy.
  rewrite (print_loop_outer
             (λ t1 t2, print3 (text t1) (text t2) (str (similarity t1 t2)))).
  rewrite app_nil_l.
  assert (Forall (λ row : list string, length row = n)
            ((λ token1, (λ token2, print3 (text token1) (text token2)
                                     (str (similarity token1 token2)))
                        <$> tokens) <$> tokens)) as Hrows.
  { apply Forall_fmap, Forall_forall. intros t _. simpl.
    by rewrite length_fmap. }
  split.
  - rewrite (length_concat_rows n) by done. by rewrite length_fmap.
  - intros i j token1 token2 Hi Hj.
    rewrite (concat_lookup_rows n) by (done || by eapply lookup_lt_Some).
    rewrite list_lookup_fmap, Hi. simpl.
    by rewrite list_lookup_fmap, Hj.
Qed.

Lemma test_spacy_prints_all_pairs_witness :
  test_spacy (λ token : string, token)
             (λ a b, if decide (a = b) then 1 else 0)
             (λ x, "<float>") ["dog"; "cat"] !! (1 * 2 + 0)%nat
  = Some "cat dog <float>".
Proof.
  apply (proj2 (test_spacy_prints_all_pairs
                  (λ token : string, token)
                  (λ a b, if decide (a = b) then 1 else 0)
                  (λ x, "<float>") ["dog"; "cat"]) 1%nat 0%nat "cat" "dog");
    reflexivity.
Defined.

(** ** [plot_spiral] *)

Lemma column_stack_Returns (p : list R * list R) :
  length p.1 = length p.2 → column_stack p = Returns (zip p.1 p.2).
Proof. intros H. unfold column_stack. by rewrite bool_decide_eq_true_2. Qed.

Lemma column_stack_inv (p : list R * list R) (offs : list (R * R)) :
  column_stack p = Returns offs →
  length p.1 = length p.2 ∧ offs = zip p.1 p.2.
Proof. unfold column_stack. case_bool_decide; [|done]. by intros [= <-]. Qed.

Lemma axis_plot_Returns (xs ys : list (option R)) (fmt : string) :
  length xs = length ys → axis_plot xs ys fmt = Returns (plot xs ys fmt).
Proof. intros H. unfold axis_plot. by rewrite bool_decide_eq_true_2. Qed.

Lemma axis_plot_Raises (xs ys : list (option R)) (fmt : string) :
  length xs ≠ length ys → axis_plot xs ys fmt = Raises ValueError.
Proof. intros H. unfold axis_plot. by rewrite bool_decide_eq_false_2. Qed.

Lemma axis_plot_inv (xs ys : list (option R)) (fmt : string) (c : axis_call) :
  axis_plot xs ys fmt = Returns c →
  length xs = length ys ∧ c = plot xs ys fmt.
Proof. unfold axis_plot. case_bool_decide; [|done]. by intros [= <-]. Qed.

Lemma isnan_differs_any_Returns (a b : list (option R)) :
  length a = length b →
  isnan_differs_any a b = Returns (isnan_differs a b).
Proof. intros H. unfold isnan_differs_any. by rewrite bool_decide_eq_true_2. Qed.

Lemma isnan_differs_any_inv (a b : list (option R)) (d : bool) :
  isnan_differs_any a b = Returns d →
  length a = length b ∧ d = isnan_differs a b.
Proof.
  unfold isnan_differs_any. case_bool_decide; [|done]. by intros [= <-].
Qed.

(** A run of [plot_spiral] on arrays that can be plotted returns. *)
Lemma plot_spiral_Returns (true data : list R * list R)
    (obsv : list (option R) * list (option R)) (pred rng : list R * list R) :
  plottable true data obsv pred →
  plot_spiral true data obsv pred rng
  = Returns (plot_spiral_calls true data obsv pred rng).
Proof.
  intros (Hpred & Htrue & Hobsv & Hdx & Hdy). unfold plot_spiral.
  rewrite column_stack_Returns by done.
  rewrite (axis_plot_Returns (Some <$> true.1)) by (by rewrite !length_fmap).
  rewrite isnan_differs_any_Returns by done.
  rewrite (axis_plot_Returns obsv.1 obsv.2) by done.
  rewrite (axis_plot_Returns (Some <$> pred.1)) by (by rewrite !length_fmap).
  unfold plot_spiral_calls. cbn [mbind outcome_bind].
  destruct (isnan_differs obsv.1 obsv.2); [|done].
  rewrite (axis_plot_Returns obsv.1)
    by (rewrite length_fmap; congruence).
  rewrite (axis_plot_Returns (Some <$> data.1))
    by (rewrite length_fmap; congruence).
  done.
Qed.

(** A run of [plot_spiral] that returns has made the calls of
    [plot_spiral_calls], on arrays of matching lengths. *)
Lemma plot_spiral_inv (true data : list R * list R)
    (obsv : list (option R) * list (option R)) (pred rng : list R * list R)
    (drawn : list axis_call) :
  plot_spiral true data obsv pred rng = Returns drawn →
  length pred.1 = length pred.2 ∧ length true.1 = length true.2 ∧
  length obsv.1 = length obsv.2 ∧
  drawn = plot_spiral_calls true data obsv pred rng.
Proof.
  unfold plot_spiral. intros Hret.
  apply bind_Returns_inv in Hret as (offs & [Hpred ->]%column_stack_inv & Hret).
  apply bind_Returns_inv in Hret as (truth & [Htrue ->]%axis_plot_inv & Hret).
  apply bind_Returns_inv in Hret
    as (differs & [Hobsv ->]%isnan_differs_any_inv & Hret).
  apply bind_Returns_inv in Hret as (markers & Hmarkers & Hret).
  apply bind_Returns_inv in Hret as (observed & [_ ->]%axis_plot_inv & Hret).
  apply bind_Returns_inv in Hret as (predicted & [_ ->]%axis_plot_inv & Hret).
  injection Hret as <-. rewrite !length_fmap in Htrue.
  split; [done|]. split; [done|]. split; [done|].
  unfold plot_spiral_calls.
  destruct (isnan_differs obsv.1 obsv.2).
  - apply bind_Returns_inv in Hmarkers as (x_only & [_ ->]%axis_plot_inv & Hm).
    apply bind_Returns_inv in Hm as (y_only & [_ ->]%axis_plot_inv & Hm).
    by injection Hm as <-.
  - by injection Hmarkers as <-.
Qed.

Lemma plot_spiral_calls_collections (true data : list R * list R)
    (obsv : list (option R) * list (option R)) (pred rng : list R * list R) :
  drawn_collections (plot_spiral_calls true data obsv pred rng)
  = [mkEllipseCollection (Rmult 1.96 <$> rng.1) (Rmult 1.96 <$> rng.2)
                         [0] "x" ["c"] 0.25 (zip pred.1 pred.2)].
Proof.
  unfold plot_spiral_calls. by destruct (isnan_differs obsv.1 obsv.2).
Qed.

(** C5: whenever [plot_spiral] returns, it has added one ellipse collection
    to the axis; the [k]-th ellipse of the collection is centred at the
    [k]-th predicted mean [(x, y)], has width [1.96] times the [k]-th x
    deviation and height [1.96] times the [k]-th y deviation, and is not
    rotated. It returns on arrays that can be plotted. The factor [1.96] is
    what the claim and the code call 95% confidence. *)
Theorem plot_spiral_ellipses (true data : list R * list R)
    (obsv : list (option R) * list (option R)) (pred rng : list R * list R) :
  (∀ drawn : list axis_call,
     plot_spiral true data obsv pred rng = Returns drawn →
     ∃ ec, drawn_collections drawn = [ec] ∧
       ∀ (k : nat) (x y sx sy : R),
         pred.1 !! k = Some x → pred.2 !! k = Some y →
         rng.1 !! k = Some sx → rng.2 !! k = Some sy →
         ellipse_at ec k = Some (mkEllipse (x, y) (1.96 * sx) (1.96 * sy) 0)) ∧
  (plottable true data obsv pred →
   ∃ drawn, plot_spiral true data obsv pred rng = Returns drawn).
Proof.
  split.
  - intros drawn (_ & _ & _ & ->)%plot_spiral_inv.
    rewrite plot_spiral_calls_collections.
    eexists. split; [reflexivity|].
    intros k x y sx sy Hx Hy Hsx Hsy. unfold ellipse_at.
    cbn [offsets widths heights angles length].
    rewrite Nat.mod_1_r, lookup_zip_with, !list_lookup_fmap.
    by rewrite Hx, Hy, Hsx, Hsy.
  - intros Hp. eexists. by apply plot_spiral_Returns.
Qed.

Lemma plot_spiral_ellipses_witness :
  ∃ drawn ec,
    plot_spiral ([0; 1], [0; 1]) ([0; 1], [0; 1])
                ([Some 0; None], [Some 0; Some 1])
                ([0.5; 1.5], [0.25; 1.25]) ([0.1; 0.2], [0.3; 0.4])
    = Returns drawn ∧
    drawn_collections drawn = [ec] ∧
    ∀ (k : nat) (x y sx sy : R),
      [0.5; 1.5] !! k = Some x → [0.25; 1.25] !! k = Some y →
      [0.1; 0.2] !! k = Some sx → [0.3; 0.4] !! k = Some sy →
      ellipse_at ec k = Some (mkEllipse (x, y) (1.96 * sx) (1.96 * sy) 0).
Proof.
  destruct (plot_spiral_ellipses ([0; 1], [0; 1]) ([0; 1], [0; 1])
              ([Some 0; None], [Some 0; Some 1])
              ([0.5; 1.5], [0.25; 1.25]) ([0.1; 0.2], [0.3; 0.4]))
    as [Hdrawn Hreturns].
  destruct Hreturns as [drawn Hret]; [by repeat split|].
  destruct (Hdrawn drawn Hret) as (ec & Hec & Hat).
  by exists drawn, ec.
Defined.

(** ** Selection of the plotted sequences *)

Lemma elem_of_drop_lookup {A : Type} (l : list A) (k : nat) (x : A) :
  x ∈ drop k l ↔ ∃ i, l !! i = Some x ∧ (k ≤ i)%nat.
Proof.
  rewrite list_elem_of_lookup. split.
  - intros [i Hi]. rewrite lookup_drop in Hi. exists (k + i)%nat.
    split; [done|lia].
  - intros (i & Hi & Hk). exists (i - k)%nat. rewrite lookup_drop.
    by replace (k + (i - k))%nat with i by lia.
Qed.

Section selection.
Variable argsort : list R → list nat.
Hypothesis argsort_ok : argsort_spec argsort.
Variable metric : list R.

Abbreviation order := (argsort metric).
Abbreviation n := (length metric).

Lemma argsort_length : length order = n.
Proof.
  destruct (argsort_ok metric) as [Hperm _].
  by rewrite Hperm, length_seq.
Qed.


Lemma argsort_elem_of (p : nat) : p ∈ order ↔ (p < n)%nat.
Proof.
  destruct (argsort_ok metric) as [Hperm _].
  rewrite Hperm, elem_of_seq. lia.
Qed.

Lemma argsort_ascending : ascending_by metric order.
Proof. destruct (argsort_ok metric) as [_ Hsorted]. exact Hsorted. Qed.

(** An index holding a metric value sits somewhere in the order. *)
Lemma argsort_position (q : nat) (y : R) :
  metric !! q = Some y → ∃ j, order !! j = Some q.
Proof.
  intros Hq. apply list_elem_of_lookup, argsort_elem_of.
  by eapply lookup_lt_Some.
Qed.




Lemma select_indices_valid :
  Forall (λ p, (p < n)%nat) (select_indices argsort metric).
Proof.
  apply Forall_forall. intros p. unfold select_indices, last4.
  rewrite elem_of_app, elem_of_reverse. intros [Hp|Hp].
  - apply elem_of_take in Hp as (i & Hi & _).
    by eapply argsort_elem_of, list_elem_of_lookup_2.
  - apply elem_of_drop_lookup in Hp as (i & Hi & _).
    by eapply argsort_elem_of, list_elem_of_lookup_2.
Qed.






End selection.

(** ** [visualize]: when it returns, and what it then draws *)

Lemma column_Returns {A : Type} (arr : list (list A)) (k : nat) :
  Forall (λ row, (k < length row)%nat) arr →
  ∃ c, column arr k = Returns c ∧ length c = length arr.
Proof.
  intros H. unfold column.
  destruct (mapM_Returns_Forall2 (λ row : list A, index row k)
              (λ _ _, True) arr) as (c & Hc & HF).
  - eapply Forall_impl; [exact H|]. intros row Hrow. simpl in Hrow.
    destruct (lookup_lt_is_Some_2 row k Hrow) as [x Hx].
    exists x. by rewrite (index_Returns _ _ _ Hx).
  - exists c. split; [done|]. symmetry. by eapply Forall2_length.
Qed.

Lemma pair_at_Returns {A : Type} (xs ys : list A) (i : nat) :
  (i < length xs)%nat → (i < length ys)%nat →
  ∃ p, pair_at xs ys i = Returns p ∧ xs !! i = Some p.1 ∧ ys !! i = Some p.2.
Proof.
  intros Hx Hy. unfold pair_at.
  destruct (lookup_lt_is_Some_2 xs i Hx) as [x Hxi].
  destruct (lookup_lt_is_Some_2 ys i Hy) as [y Hyi].
  rewrite (index_Returns _ _ _ Hxi), (index_Returns _ _ _ Hyi).
  by exists (x, y).
Qed.

Lemma column_pair_Returns (xs ys : list (list (list R))) (k i : nat) :
  (i < length xs)%nat →
  Forall (Forall (λ row : list R, (2 ≤ length row)%nat)) xs →
  Forall (Forall (λ row : list R, (2 ≤ length row)%nat)) ys →
  Forall2 (λ ax ay : list (list R), length ax = length ay) xs ys →
  (k < 2)%nat →
  ∃ p, column_pair xs ys k i = Returns p ∧ length p.1 = length p.2.
Proof.
  intros Hi Hxs Hys Hxy Hk. unfold column_pair.
  destruct (lookup_lt_is_Some_2 xs i Hi) as [ax Hax].
  destruct (Forall2_lookup_l _ _ _ _ _ Hxy Hax) as (ay & Hay & Hlen).
  rewrite (index_Returns _ _ _ Hax), (index_Returns _ _ _ Hay). simpl.
  destruct (column_Returns ax k) as (cx & -> & Hcx).
  { eapply Forall_impl; [exact (Forall_lookup_1 _ _ _ _ Hxs Hax)|].
    simpl. intros; lia. }
  simpl.
  destruct (column_Returns ay k) as (cy & -> & Hcy).
  { eapply Forall_impl; [exact (Forall_lookup_1 _ _ _ _ Hys Hay)|].
    simpl. intros; lia. }
  simpl. eexists. split; [reflexivity|]. simpl. congruence.
Qed.

Lemma sequence_truth_Returns (results : Results) (s : nat) :
  (s < length (targets_metadata results))%nat →
  Forall (Forall (λ row : list R, (2 ≤ length row)%nat))
         (targets_metadata results) →
  ∃ true, sequence_truth results s = Returns true ∧
          length true.1 = length true.2.
Proof.
  intros Hs Hrows. unfold sequence_truth.
  destruct (lookup_lt_is_Some_2 _ s Hs) as [arr Harr].
  rewrite (index_Returns _ _ _ Harr). cbn [mbind outcome_bind].
  assert (Forall (λ row : list R, length row = 2%nat) (take 2 <$> arr))
    as Htwo.
  { apply Forall_fmap.
    eapply Forall_impl; [exact (Forall_lookup_1 _ _ _ _ Hrows Harr)|].
    simpl. intros row Hrow. rewrite length_take. lia. }
  destruct (column_Returns (take 2 <$> arr) 0) as (c0 & -> & Hc0).
  { eapply Forall_impl; [exact Htwo|]. simpl. intros; lia. }
  destruct (column_Returns (take 2 <$> arr) 1) as (c1 & -> & Hc1).
  { eapply Forall_impl; [exact Htwo|]. simpl. intros; lia. }
  exists (c0, c1). split; [done|]. simpl. congruence.
Qed.

(** Every covered sequence can be plotted on its own. *)
Lemma sequence_plot_Returns (n : nat) (results : Results) (s : nat) :
  results_cover n results → (s < n)%nat →
  ∃ drawn, sequence_plot results s = Returns drawn.
Proof.
  intros (Hmd & Hmdrows & Htx & Hty & Hix & Hiy & Hrx & Hry & Hrxrows
          & Hryrows & Hrxy & Hixy & Htix & Htiy) Hs.
  unfold sequence_plot.
  destruct (sequence_truth_Returns results s) as (true & -> & Htrue);
    [lia|done|].
  destruct (pair_at_Returns (targets_x results) (targets_y results) s)
    as (data & -> & Hdx & Hdy); [lia..|].
  destruct (pair_at_Returns (inputs_x results) (inputs_y results) s)
    as (obsv & -> & Hox & Hoy); [lia..|].
  destruct (column_pair_Returns (recon_x results) (recon_y results) 0 s)
    as (pred & -> & Hpred); [lia|done..|lia|].
  destruct (column_pair_Returns (recon_x results) (recon_y results) 1 s)
    as (rng & -> & _); [lia|done..|lia|].
  cbn [mbind outcome_bind]. eexists. apply plot_spiral_Returns.
  split; [done|]. split; [done|].
  split; [exact (Forall2_lookup_lr _ _ _ _ _ _ Hixy Hox Hoy)|].
  split.
  - exact (Forall2_lookup_lr _ _ _ _ _ _ Htix Hdx Hox).
  - exact (Forall2_lookup_lr _ _ _ _ _ _ Htiy Hdy Hox).
Qed.

Ltac next_mapM k HF :=
  match goal with
  | |- context [mbind _ (mapM ?f ?l)] =>
      let Heq := fresh "Heq" in
      destruct (mapM_Returns_exists f l) as (k & Heq & HF);
      [|rewrite Heq; cbn [mbind outcome_bind]]
  end.

(** [visualize] returns if every selected sequence has its metric value and
    can be plotted on its own. *)
Lemma visualize_of_sequences (argsort : list R → list nat)
    (results : Results) (metric : list R) :
  Forall (λ s, ∃ m drawn, metric !! s = Some m ∧
                          sequence_plot results s = Returns drawn)
         (select_indices argsort metric) →
  ∃ panels, visualize argsort results metric = Returns panels.
Proof.
  intros Hseq. unfold visualize.
  set (sel_idx := select_indices argsort metric) in *.
  destruct (mapM_Returns_exists (index metric) sel_idx)
    as (sel_metric & -> & Hmetric).
  { eapply Forall_impl; [exact Hseq|]. intros s (m & drawn & Hm & _).
    exists m. by apply index_Returns. }
  next_mapM sel_arr Harr.
  { eapply Forall_impl; [exact Hseq|]. intros s (m & drawn & _ & Hplot).
    unfold sequence_plot, sequence_truth in Hplot.
    apply bind_Returns_inv in Hplot as (true & Htrue & _).
    apply bind_Returns_inv in Htrue as (arr & -> & _). by eexists. }
  next_mapM sel_true Htrue.
  { eapply Forall2_Forall_r; [exact Harr|].
    eapply Forall_impl; [exact Hseq|].
    intros s (m & drawn & _ & Hplot) arr Hs.
    unfold sequence_plot, sequence_truth in Hplot.
    apply bind_Returns_inv in Hplot as (true & Htrue & _).
    apply bind_Returns_inv in Htrue as (arr0 & Harr0 & Htrue).
    rewrite Harr0 in Hs. injection Hs as <-. by exists true. }
  next_mapM sel_data Hdata.
  { eapply Forall_impl; [exact Hseq|]. intros s (m & drawn & _ & Hplot).
    unfold sequence_plot in Hplot.
    apply bind_Returns_inv in Hplot as (true & _ & Hplot).
    apply bind_Returns_inv in Hplot as (data & Hdata & _). by exists data. }
  next_mapM sel_obsv Hobsv.
  { eapply Forall_impl; [exact Hseq|]. intros s (m & drawn & _ & Hplot).
    unfold sequence_plot in Hplot.
    apply bind_Returns_inv in Hplot as (true & _ & Hplot).
    apply bind_Returns_inv in Hplot as (data & _ & Hplot).
    apply bind_Returns_inv in Hplot as (obsv & Hobsv & _). by exists obsv. }
  next_mapM sel_pred Hpred.
  { eapply Forall_impl; [exact Hseq|]. intros s (m & drawn & _ & Hplot).
    unfold sequence_plot in Hplot.
    apply bind_Returns_inv in Hplot as (true & _ & Hplot).
    apply bind_Returns_inv in Hplot as (data & _ & Hplot).
    apply bind_Returns_inv in Hplot as (obsv & _ & Hplot).
    apply bind_Returns_inv in Hplot as (pred & Hpred & _). by exists pred. }
  next_mapM sel_rng Hrng.
  { eapply Forall_impl; [exact Hseq|]. intros s (m & drawn & _ & Hplot).
    unfold sequence_plot in Hplot.
    apply bind_Returns_inv in Hplot as (true & _ & Hplot).
    apply bind_Returns_inv in Hplot as (data & _ & Hplot).
    apply bind_Returns_inv in Hplot as (obsv & _ & Hplot).
    apply bind_Returns_inv in Hplot as (pred & _ & Hplot).
    apply bind_Returns_inv in Hplot as (rng & Hrng & _). by exists rng. }
  cbn [mbind outcome_bind].
  match goal with
  | |- context [mapM ?f ?l] =>
      destruct (mapM_Returns_exists f l) as (panels & -> & _);
      [|by exists panels]
  end.
  apply Forall_forall. intros i [_ Hi]%elem_of_seq. simpl in Hi.
  destruct (lookup_lt_is_Some_2 sel_idx i Hi) as [s Hs].
  destruct (Forall_lookup_1 _ _ _ _ Hseq Hs) as (m & drawn & Hm & Hplot).
  destruct (Forall2_lookup_l _ _ _ _ _ Hmetric Hs) as (m' & Hmi & Hm').
  destruct (Forall2_lookup_l _ _ _ _ _ Harr Hs) as (arr & Harri & Harr').
  destruct (Forall2_lookup_l _ _ _ _ _ Htrue Harri) as (tr & Htri & Htr').
  destruct (Forall2_lookup_l _ _ _ _ _ Hdata Hs) as (da & Hdai & Hda').
  destruct (Forall2_lookup_l _ _ _ _ _ Hobsv Hs) as (ob & Hobi & Hob').
  destruct (Forall2_lookup_l _ _ _ _ _ Hpred Hs) as (pr & Hpri & Hpr').
  destruct (Forall2_lookup_l _ _ _ _ _ Hrng Hs) as (rn & Hrni & Hrn').
  unfold sequence_plot, sequence_truth in Hplot.
  apply bind_Returns_inv in Harr' as (arr0 & Harr0 & [= <-]).
  rewrite Harr0 in Hplot. cbn [mbind outcome_bind] in Hplot.
  rewrite Htr', Hda', Hob', Hpr', Hrn' in Hplot.
  cbn [mbind outcome_bind] in Hplot.
  unfold draw_panel.
  rewrite (index_Returns _ _ _ Htri), (index_Returns _ _ _ Hdai),
    (index_Returns _ _ _ Hobi), (index_Returns _ _ _ Hpri),
    (index_Returns _ _ _ Hrni), (index_Returns _ _ _ Hmi),
    (index_Returns _ _ _ Hs).
  cbn [mbind outcome_bind]. rewrite Hplot. by eexists.
Qed.

(** [visualize] returns on results that cover the metric list. *)
Lemma visualize_Returns (argsort : list R → list nat) (results : Results)
    (metric : list R) :
  Forall (λ p, (p < length metric)%nat) (select_indices argsort metric) →
  results_cover (length metric) results →
  ∃ panels, visualize argsort results metric = Returns panels.
Proof.
  intros Hvalid Hcover. apply visualize_of_sequences.
  eapply Forall_impl; [exact Hvalid|]. intros s Hs. simpl in Hs.
  destruct (lookup_lt_is_Some_2 metric s Hs) as [m Hm].
  destruct (sequence_plot_Returns _ results s Hcover Hs) as [drawn Hdrawn].
  by exists m, drawn.
Qed.

(** A run of [visualize] that returns has drawn one panel per selected
    index. *)
Lemma visualize_length (argsort : list R → list nat) (results : Results)
    (metric : list R) (panels : list panel) :
  visualize argsort results metric = Returns panels →
  length panels = length (select_indices argsort metric).
Proof.
  unfold visualize. intros Hret.
  do 7 (apply bind_Returns_inv in Hret as (? & _ & Hret)).
  apply mapM_Returns_inv, Forall2_length in Hret.
  by rewrite length_seq in Hret.
Qed.

(** Panel [i] of a run of [visualize] that returns: the plot of the [i]-th
    selected sequence on its own, then its title and its label, on the
    axis of row [i mod 4] and column [i // 4]. *)
Lemma visualize_panel_inv (argsort : list R → list nat)
    (results : Results) (metric : list R) (panels : list panel)
    (i : nat) (p : panel) :
  visualize argsort results metric = Returns panels →
  panels !! i = Some p →
  ∃ s m drawn,
    select_indices argsort metric !! i = Some s ∧
    metric !! s = Some m ∧
    sequence_plot results s = Returns drawn ∧
    p = mkPanel (i mod 4) (i / 4) (drawn ++ [set_title m; set_xlabel s]).
Proof.
  unfold visualize. intros Hret Hp.
  apply bind_Returns_inv in Hret as (sel_metric & Hmetric & Hret).
  apply bind_Returns_inv in Hret as (sel_arr & Harr & Hret).
  apply bind_Returns_inv in Hret as (sel_true & Htrue & Hret).
  apply bind_Returns_inv in Hret as (sel_data & Hdata & Hret).
  apply bind_Returns_inv in Hret as (sel_obsv & Hobsv & Hret).
  apply bind_Returns_inv in Hret as (sel_pred & Hpred & Hret).
  apply bind_Returns_inv in Hret as (sel_rng & Hrng & Hret).
  apply mapM_Returns_inv in Hret.
  destruct (Forall2_lookup_r _ _ _ _ _ Hret Hp) as (i' & Hi' & Hdraw).
  apply lookup_seq in Hi' as [-> Hi]. simpl in Hdraw, Hi. clear Hret Hp.
  unfold draw_panel in Hdraw.
  apply bind_Returns_inv in Hdraw as (true & Ht & Hdraw).
  apply bind_Returns_inv in Hdraw as (data & Hd & Hdraw).
  apply bind_Returns_inv in Hdraw as (obsv & Ho & Hdraw).
  apply bind_Returns_inv in Hdraw as (pred & Hpr & Hdraw).
  apply bind_Returns_inv in Hdraw as (rng & Hr & Hdraw).
  apply bind_Returns_inv in Hdraw as (drawn & Hplot & Hdraw).
  apply bind_Returns_inv in Hdraw as (m & Hm & Hdraw).
  apply bind_Returns_inv in Hdraw as (s & Hs & Hdraw).
  injection Hdraw as <-.
  apply index_Returns_inv in Ht, Hd, Ho, Hpr, Hr, Hm, Hs.
  exists s, m, drawn. split; [done|].
  destruct (mapM_Returns_lookup _ _ _ _ _ Hmetric Hs) as (m' & Hm' & Hms).
  destruct (mapM_Returns_lookup _ _ _ _ _ Harr Hs) as (arr & Harr' & Harrs).
  destruct (mapM_Returns_lookup _ _ _ _ _ Htrue Harr') as (tr & Htr & Htrs).
  destruct (mapM_Returns_lookup _ _ _ _ _ Hdata Hs) as (da & Hda & Hdas).
  destruct (mapM_Returns_lookup _ _ _ _ _ Hobsv Hs) as (ob & Hob & Hobs).
  destruct (mapM_Returns_lookup _ _ _ _ _ Hpred Hs) as (pr & Hpr' & Hprs).
  destruct (mapM_Returns_lookup _ _ _ _ _ Hrng Hs) as (rn & Hrn & Hrns).
  simplify_eq. split; [by apply index_Returns_inv|]. split; [|done].
  unfold sequence_plot, sequence_truth.
  apply bind_Returns_inv in Harrs as (arr0 & -> & [= <-]).
  cbn [mbind outcome_bind]. rewrite Htrs, Hdas, Hobs, Hprs, Hrns. done.
Qed.

(** ** A function meeting the contract of [np.argsort] *)

#[local] Instance by_value_transitive (a : list R) : Transitive (by_value a).
Proof. intros p q r. unfold by_value. lra. Qed.

#[local] Instance by_value_total (a : list R) : Total (by_value a).
Proof. intros p q. unfold by_value. lra. Qed.

Lemma StronglySorted_lookup {A : Type} (rel : relation A) (l : list A)
    (i j : nat) (x y : A) :
  StronglySorted rel l → (i < j)%nat →
  l !! i = Some x → l !! j = Some y → rel x y.
Proof.
  intros Hs. revert i j. induction Hs as [|z l _ IH Hz]; intros i j Hij Hi Hj.
  - by rewrite lookup_nil in Hi.
  - destruct j as [|j]; [lia|]. destruct i as [|i]; simpl in *.
    + injection Hi as ->. rewrite Forall_forall in Hz. apply Hz.
      by eapply list_elem_of_lookup_2.
    + apply (IH i j); [lia|done..].
Qed.

Lemma merge_argsort_spec : argsort_spec merge_argsort.
Proof.
  intros a. unfold merge_argsort. split; [apply merge_sort_Permutation|].
  intros i j p q x y Hij Hi Hj Hp Hq.
  destruct (decide (i = j)) as [->|Hne].
  - assert (p = q) as -> by congruence.
    assert (x = y) as -> by congruence. lra.
  - pose proof (StronglySorted_lookup (by_value a) _ i j p q
                  (StronglySorted_merge_sort _ _) ltac:(lia) Hi Hj) as Hpq.
    unfold by_value in Hpq. by rewrite Hp, Hq in Hpq.
Qed.

(** ** The selection made by [visualize] *)



Lemma uniform_results_cover (n : nat) : results_cover n (uniform_results n).
Proof.
  unfold results_cover, uniform_results. simpl.
  rewrite !length_replicate.
  repeat split; try lia;
    try (apply Forall_replicate; repeat constructor; simpl; lia);
    induction n; simpl; by constructor.
Qed.



(** ** Tensors as tabulations of their elements *)

Section tabulate.
Context {A : Type}.

Lemma length_tabulate (n : nat) (f : nat → A) : length (tabulate n f) = n.
Proof. unfold tabulate. by rewrite length_fmap, length_seq. Qed.

Lemma lookup_tabulate (n : nat) (f : nat → A) (i : nat) :
  (i < n)%nat → tabulate n f !! i = Some (f i).
Proof.
  intros Hi. unfold tabulate.
  by rewrite list_lookup_fmap, lookup_seq_lt.
Qed.

Lemma tabulate_ext (n : nat) (f g : nat → A) :
  (∀ i, (i < n)%nat → f i = g i) → tabulate n f = tabulate n g.
Proof.
  intros H. apply list_fmap_ext. intros i x Hx.
  apply lookup_seq in Hx as [-> Hi]. by apply H.
Qed.

Lemma tabulate_lookup (dflt : A) (l : list A) :
  l = tabulate (length l) (λ i, default dflt (l !! i)).
Proof.
  apply list_eq. intros i.
  destruct (decide (i < length l)%nat) as [Hi|Hi].
  - rewrite lookup_tabulate by done.
    by destruct (lookup_lt_is_Some_2 l i Hi) as [x ->].
  - rewrite !lookup_ge_None_2; [done| |lia].
    rewrite length_tabulate. lia.
Qed.

Lemma fmap_tabulate {B : Type} (h : A → B) (n : nat) (f : nat → A) :
  h <$> tabulate n f = tabulate n (λ i, h (f i)).
Proof. unfold tabulate. by rewrite <- list_fmap_compose. Qed.

Lemma zip_with_tabulate {B C : Type} (h : A → B → C) (n : nat)
    (f : nat → A) (g : nat → B) :
  zip_with h (tabulate n f) (tabulate n g) = tabulate n (λ i, h (f i) (g i)).
Proof.
  unfold tabulate. rewrite zip_with_fmap_l, zip_with_fmap_r.
  apply zip_with_diag.
Qed.
End tabulate.

Lemma replicate_tabulate {A : Type} (n : nat) (x : A) :
  replicate n x = tabulate n (λ _, x).
Proof.
  apply list_eq. intros i. destruct (decide (i < n)%nat) as [Hi|Hi].
  - by rewrite lookup_tabulate, lookup_replicate_2.
  - rewrite !lookup_ge_None_2; [done| |];
      rewrite ?length_tabulate, ?length_replicate; lia.
Qed.

(** A tensor of shape [(T, B, D)] is the tabulation of its elements. *)
Lemma shape3_tabulate {A : Type} (dflt : A) (T B D : nat)
    (a : list (list (list A))) :
  shape3 T B D a →
  a = tabulate T (λ t, tabulate B (λ b, tabulate D (λ d,
        default dflt (row ← a !! t; cell ← row !! b; cell !! d)))).
Proof.
  intros [HT Hrows]. rewrite (tabulate_lookup [] a) at 1. rewrite HT.
  apply tabulate_ext. intros t Ht.
  destruct (lookup_lt_is_Some_2 a t) as [row Hrow]; [lia|].
  rewrite Hrow. simpl.
  destruct (Forall_lookup_1 _ _ _ _ Hrows Hrow) as [HB Hcells].
  rewrite (tabulate_lookup [] row) at 1. rewrite HB.
  apply tabulate_ext. intros b Hb.
  destruct (lookup_lt_is_Some_2 row b) as [cell Hcell]; [lia|].
  rewrite Hcell. simpl.
  pose proof (Forall_lookup_1 _ _ _ _ Hcells Hcell) as HD. simpl in HD.
  rewrite (tabulate_lookup dflt cell) at 1. by rewrite HD.
Qed.

Lemma zip_with3_tabulate {A B C : Type} (h : A → B → C) (T B' D : nat)
    (f : nat → nat → nat → A) (g : nat → nat → nat → B) :
  zip_with (zip_with (zip_with h))
    (tabulate T (λ t, tabulate B' (λ b, tabulate D (f t b))))
    (tabulate T (λ t, tabulate B' (λ b, tabulate D (g t b))))
  = tabulate T (λ t, tabulate B' (λ b, tabulate D (λ d,
      h (f t b d) (g t b d)))).
Proof.
  rewrite zip_with_tabulate. apply tabulate_ext. intros t _.
  rewrite zip_with_tabulate. apply tabulate_ext. intros b _.
  apply zip_with_tabulate.
Qed.

Lemma zip_with2_tabulate {A B C : Type} (h : A → B → C) (T B' : nat)
    (f : nat → nat → A) (g : nat → nat → B) :
  zip_with (zip_with h)
    (tabulate T (λ t, tabulate B' (f t)))
    (tabulate T (λ t, tabulate B' (g t)))
  = tabulate T (λ t, tabulate B' (λ b, h (f t b) (g t b))).
Proof.
  rewrite zip_with_tabulate. apply tabulate_ext. intros t _.
  apply zip_with_tabulate.
Qed.

Lemma tabulate3_ext {A : Type} (T B D : nat) (f g : nat → nat → nat → A) :
  (∀ t b d, (t < T)%nat → (b < B)%nat → (d < D)%nat → f t b d = g t b d) →
  tabulate T (λ t, tabulate B (λ b, tabulate D (f t b)))
  = tabulate T (λ t, tabulate B (λ b, tabulate D (g t b))).
Proof.
  intros H. apply tabulate_ext. intros t Ht.
  apply tabulate_ext. intros b Hb. apply tabulate_ext. intros d Hd. auto.
Qed.

Lemma foldl_Rplus_sum (x : R) (l : list R) :
  foldl Rplus x l = x + np.sum l.
Proof.
  unfold np.sum. revert x. induction l as [|y l IH]; intros x; simpl.
  - lra.
  - rewrite IH. lra.
Qed.

(** ** [compute_metrics] *)

Section mse.
Variables T B D : nat.

Abbreviation tab3 f :=
  (tabulate T (λ t, tabulate B (λ b, tabulate D (f t b)))).
Abbreviation tab2 f := (tabulate T (λ t, tabulate B (f t))).

Lemma sub_pow2_tabulate (f g : nat → nat → nat → R) :
  torch.pow2 (torch.sub (tab3 f) (tab3 g))
  = tab3 (λ t b d, (f t b d - g t b d) ^ 2).
Proof.
  unfold torch.pow2, torch.sub. rewrite zip_with3_tabulate.
  rewrite fmap_tabulate. apply tabulate_ext. intros t _.
  rewrite fmap_tabulate. apply tabulate_ext. intros b _.
  apply fmap_tabulate.
Qed.

Lemma sq_error_tabulate (targets : gmap string (list (list (list R))))
    (item : string * (list (list (list R)) * list (list (list R))))
    (tgt : list (list (list R))) :
  shape3 T B D item.2.1 → targets !! item.1 = Some tgt → shape3 T B D tgt →
  sq_error targets item = Returns (tab3 (sq_error_at targets item)).
Proof.
  intros Hmu Htgt Hshape. unfold sq_error.
  rewrite (getitem_Returns _ _ _ Htgt). simpl. f_equal.
  assert (∀ a b, a = tab3 (at3 item.2.1) → b = tab3 (at3 tgt) →
          torch.pow2 (torch.sub a b)
          = tab3 (λ t b d, (at3 item.2.1 t b d - at3 tgt t b d) ^ 2))
    as Hsub by (intros a b -> ->; apply sub_pow2_tabulate).
  rewrite (Hsub item.2.1 tgt); try by apply (shape3_tabulate 0).
  apply tabulate3_ext. intros t b d _ _ _.
  unfold sq_error_at. by rewrite Htgt.
Qed.

Lemma foldl_add_tabulate {X : Type} (h : X → nat → nat → nat → R)
    (l : list X) (f : nat → nat → nat → R) :
  foldl torch.add (tab3 f) ((λ x, tab3 (h x)) <$> l)
  = tab3 (λ t b d, foldl Rplus (f t b d) ((λ x, h x t b d) <$> l)).
Proof.
  revert f. induction l as [|x l IH]; intros f; [done|].
  cbn [fmap list_fmap foldl]. unfold torch.add at 2.
  rewrite zip_with3_tabulate. apply IH.
Qed.

Lemma sum_from_dim2_tabulate (f : nat → nat → nat → R) :
  torch.sum_from_dim2 (tab3 f) = tab2 (λ t b, sum_upto D (f t b)).
Proof.
  unfold torch.sum_from_dim2. rewrite fmap_tabulate.
  apply tabulate_ext. intros t _. by rewrite fmap_tabulate.
Qed.

Lemma squeeze_last_tabulate (mask : list (list (list bool))) :
  shape3 T B 1 mask → torch.squeeze_last mask = tab2 (mask_at mask).
Proof.
  intros Hm. rewrite (shape3_tabulate false T B 1 mask Hm) at 1.
  unfold torch.squeeze_last. rewrite fmap_tabulate.
  apply tabulate_ext. intros t _. rewrite fmap_tabulate.
  apply tabulate_ext. intros b _. reflexivity.
Qed.

Lemma masked_zero_tabulate (v : nat → nat → R) (m : nat → nat → bool) :
  torch.masked_zero (tab2 v) (torch.invert (tab2 m))
  = tab2 (λ t b, if m t b then v t b else 0).
Proof.
  unfold torch.masked_zero, torch.invert.
  assert (lmap (lmap negb) (tab2 m) = tab2 (λ t b, negb (m t b))) as ->.
  { rewrite fmap_tabulate. apply tabulate_ext. intros t _.
    apply fmap_tabulate. }
  rewrite zip_with2_tabulate. apply tabulate_ext. intros t _.
  apply tabulate_ext. intros b _. by destruct (m t b).
Qed.

Lemma sum_rows_tabulate (v : nat → nat → R) (ts : list nat) :
  foldr (zip_with Rplus) (replicate B 0) ((λ t, tabulate B (v t)) <$> ts)
  = tabulate B (λ b, np.sum ((λ t, v t b) <$> ts)).
Proof.
  induction ts as [|t ts IH]; cbn [fmap list_fmap foldr].
  - apply replicate_tabulate.
  - rewrite IH. apply zip_with_tabulate.
Qed.

Lemma sum_dim0_tabulate (v : nat → nat → R) :
  torch.sum_dim0 B (tab2 v) = tabulate B (λ b, sum_upto T (λ t, v t b)).
Proof. apply sum_rows_tabulate. Qed.

Lemma index_select_tabulate (f : nat → R) (order : list nat) :
  Forall (λ b, (b < B)%nat) order →
  torch.index_select (tabulate B f) order = Returns (f <$> order).
Proof.
  intros Horder. apply mapM_Returns_fmap.
  eapply Forall_impl; [exact Horder|]. intros b Hb. simpl in Hb.
  apply index_Returns. by apply lookup_tabulate.
Qed.

Lemma time_avg_tabulate (mask : list (list (list bool))) (lengths : list Z)
    (v : nat → nat → R) :
  shape3 T B 1 mask → length lengths = B →
  time_avg mask lengths (tab2 v)
  = tabulate B (λ b,
      sum_upto T (λ t, if mask_at mask t b then v t b else 0)
      / IZR (default 0%Z (lengths !! b))).
Proof.
  intros Hm Hl. unfold time_avg.
  rewrite squeeze_last_tabulate by done.
  rewrite masked_zero_tabulate, Hl, sum_dim0_tabulate.
  rewrite (tabulate_lookup 0%Z lengths) at 1. rewrite Hl.
  unfold torch.div. rewrite fmap_tabulate. apply zip_with_tabulate.
Qed.
End mse.

Lemma sum_upto_ext (n : nat) (f g : nat → R) :
  (∀ i, (i < n)%nat → f i = g i) → sum_upto n f = sum_upto n g.
Proof.
  intros H. unfold sum_upto. f_equal. by apply (tabulate_ext n f g).
Qed.

(** C4, as amended: under an interpreter whose [range] returns a list
    (Python 2) and on a well-shaped batch, the ['mse'] metric lists, for the
    sequences in the order given by [order], the squared reconstruction
    error summed over modalities and feature dimensions at each time-step,
    zeroed outside the mask, summed over time and divided by the length of
    the sequence. Well shaped means: at least one modality, every
    reconstruction mean and its target of shape [(T, B, D)], the mask of
    shape [(T, B, 1)], [B] nonzero lengths, and every entry of [order] a
    sequence index. *)
Theorem compute_metrics_mse (kld rec : R)
    (recon : list (string * (list (list (list R)) * list (list (list R)))))
    (targets : gmap string (list (list (list R))))
    (mask : list (list (list bool))) (lengths : list Z) (order : list nat)
    (T B D : nat) :
  recon ≠ [] →
  Forall (λ item, shape3 T B D item.2.1 ∧
                  ∃ tgt, targets !! item.1 = Some tgt ∧ shape3 T B D tgt)
         recon →
  shape3 T B 1 mask →
  length lengths = B →
  Forall (λ len, len ≠ 0%Z) lengths →
  Forall (λ b, (b < B)%nat) order →
  compute_metrics Python2 kld rec recon targets mask lengths order
  = Returns [("kld_loss", MScalar kld); ("rec_loss", MScalar rec);
             ("mse", MList ((λ b, masked_time_average recon targets mask
                                    lengths T D b) <$> order))].
Proof.
  intros Hne Hrecon Hmask Hlen _ Horder. unfold compute_metrics.
  rewrite (mapM_Returns_fmap _
             (λ item, tabulate T (λ t, tabulate B (λ b, tabulate D
                        (sq_error_at targets item t b))))).
  2:{ eapply Forall_impl; [exact Hrecon|].
      intros item (Hmu & tgt & Htgt & Hshape). by eapply sq_error_tabulate. }
  destruct recon as [|item rest]; [done|].
  cbn [mbind outcome_bind fmap list_fmap py_sum mret outcome_ret].
  rewrite (foldl_add_tabulate T B D (sq_error_at targets) rest).
  cbn [sum_over_range mbind outcome_bind mret outcome_ret].
  rewrite sum_from_dim2_tabulate, time_avg_tabulate by done.
  rewrite index_select_tabulate by done.
  cbn [mbind outcome_bind mret outcome_ret]. do 6 f_equal.
  apply list_fmap_ext. intros _ b _.
  unfold masked_time_average. f_equal.
  apply sum_upto_ext. intros t _. destruct (mask_at mask t b); [|done].
  unfold step_sq_error. apply sum_upto_ext. intros d _.
  by rewrite foldl_Rplus_sum.
Qed.

Lemma compute_metrics_mse_witness :
  let recon := [("spiral-x", ([[[1]; [2]]; [[3]; [4]]], [[[1]; [1]]; [[1]; [1]]]));
                ("spiral-y", ([[[0]; [1]]; [[0]; [1]]], [[[1]; [1]]; [[1]; [1]]]))] in
  let targets : gmap string (list (list (list R))) :=
    {["spiral-x" := [[[0]; [0]]; [[1]; [1]]];
      "spiral-y" := [[[0]; [0]]; [[0]; [0]]]]} in
  let mask := [[[true]; [true]]; [[true]; [false]]] in
  compute_metrics Python2 5 7 recon targets mask [2; 1]%Z [1; 0]%nat
  = Returns [("kld_loss", MScalar 5); ("rec_loss", MScalar 7);
             ("mse", MList ((λ b, masked_time_average recon targets mask
                                    [2; 1]%Z 2 1 b) <$> [1; 0]%nat))].
Proof.
  intros recon targets mask.
  apply (compute_metrics_mse 5 7 recon targets mask [2; 1]%Z [1; 0]%nat
           2 2 1).
  - discriminate.
  - unfold recon, targets.
    repeat apply Forall_cons_2; try apply Forall_nil_2; simpl.
    + split; [by repeat constructor|]. eexists. split.
      * apply lookup_insert_eq.
      * by repeat constructor.
    + split; [by repeat constructor|]. eexists. split.
      * rewrite lookup_insert_ne by done. apply lookup_singleton_eq.
      * by repeat constructor.
  - by repeat constructor.
  - reflexivity.
  - by repeat constructor.
  - repeat constructor; lia.
Defined.

(** Under an interpreter whose [range] returns a range object (Python 3),
    every batch whose modalities all have a target raises [TypeError] at
    the sum over the feature axes. *)
Lemma compute_metrics_Python3 (kld rec : R)
    (recon : list (string * (list (list (list R)) * list (list (list R)))))
    (targets : gmap string (list (list (list R))))
    (mask : list (list (list bool))) (lengths : list Z) (order : list nat) :
  recon ≠ [] →
  Forall (λ item, is_Some (targets !! item.1)) recon →
  compute_metrics Python3 kld rec recon targets mask lengths order
  = Raises TypeError.
Proof.
  intros Hne Htargets. unfold compute_metrics.
  destruct (mapM_Returns_exists (sq_error targets) recon)
    as (errs & Herrs & Hall).
  { eapply Forall_impl; [exact Htargets|]. intros item [tgt Htgt].
    unfold sq_error. rewrite (getitem_Returns _ _ _ Htgt). by eexists. }
  rewrite Herrs. cbn [mbind outcome_bind].
  destruct errs as [|err errs]; [|done].
  apply Forall2_length in Hall. by destruct recon.
Qed.

(** C4 as stated fails: on the well-shaped batch above, under Python 3
    nothing is reported, the call raises [TypeError]; and under either
    interpreter a batch that lacks the target of a modality raises
    [KeyError]. *)
Lemma compute_metrics_raises :
  let recon := [("spiral-x", ([[[1]; [2]]; [[3]; [4]]], [[[1]; [1]]; [[1]; [1]]]));
                ("spiral-y", ([[[0]; [1]]; [[0]; [1]]], [[[1]; [1]]; [[1]; [1]]]))] in
  let targets : gmap string (list (list (list R))) :=
    {["spiral-x" := [[[0]; [0]]; [[1]; [1]]];
      "spiral-y" := [[[0]; [0]]; [[0]; [0]]]]} in
  let mask := [[[true]; [true]]; [[true]; [false]]] in
  compute_metrics Python3 5 7 recon targets mask [2; 1]%Z [1; 0]%nat
  = Raises TypeError ∧
  ∀ py, compute_metrics py 5 7 recon {["spiral-x" := [[[0]; [0]]; [[1]; [1]]]]}
                        mask [2; 1]%Z [1; 0]%nat
        = Raises (KeyError "spiral-y").
Proof.
  intros recon targets mask. split.
  - apply compute_metrics_Python3; [done|].
    unfold recon, targets.
    repeat apply Forall_cons_2; try apply Forall_nil_2; simpl.
    + eexists. apply lookup_insert_eq.
    + eexists. rewrite lookup_insert_ne by done. apply lookup_singleton_eq.
  - intros py. unfold compute_metrics, recon.
    match goal with
    | |- context [mapM ?f [?a; ?b]] =>
        change [a; b] with ([a] ++ [b]);
        rewrite (mapM_Raises f [a] [] b (KeyError "spiral-y")); [done| |]
    end.
    + apply Forall_cons_2; [|apply Forall_nil_2].
      unfold sq_error. simpl.
      rewrite (getitem_Returns _ "spiral-x" [[[0]; [0]]; [[1]; [1]]])
        by apply lookup_singleton_eq.
      by eexists.
    + unfold sq_error. simpl. by rewrite getitem_Raises.
Qed.

(** On that batch the second sequence, of length one and masked at the
    second step, has mean squared error [(2 - 0)² + (1 - 0)² = 5]. *)
Lemma masked_time_average_example :
  let recon := [("spiral-x", ([[[1]; [2]]; [[3]; [4]]], [[[1]; [1]]; [[1]; [1]]]));
                ("spiral-y", ([[[0]; [1]]; [[0]; [1]]], [[[1]; [1]]; [[1]; [1]]]))] in
  let targets : gmap string (list (list (list R))) :=
    {["spiral-x" := [[[0]; [0]]; [[1]; [1]]];
      "spiral-y" := [[[0]; [0]]; [[0]; [0]]]]} in
  let mask := [[[true]; [true]]; [[true]; [false]]] in
  masked_time_average recon targets mask [2; 1]%Z 2 1 1 = 5.
Proof.
  intros recon targets mask.
  assert (targets !! "spiral-x" = Some [[[0]; [0]]; [[1]; [1]]]) as Hx
    by apply lookup_insert_eq.
  assert (targets !! "spiral-y" = Some [[[0]; [0]]; [[0]; [0]]]) as Hy
    by (unfold targets; rewrite lookup_insert_ne by done;
        apply lookup_singleton_eq).
  unfold masked_time_average, step_sq_error, sum_upto, np.sum, sq_error_at,
    recon, mask.
  cbn [seq fmap list_fmap foldr fst snd mask_at].
  rewrite Hx, Hy. unfold at3, mask_at. simpl. lra.
Qed.

(** * Further properties of the code *)

(** ** [summarize_metrics]: keys of the summary and the [KeyError] *)

Lemma summarize_step_origin (n : Z) (s : gmap string R)
    (item : string * metric) (k : string) :
  is_Some (summarize_step n s item !! k) →
  is_Some (s !! k) ∨ k ∈ writes item.
Proof.
  intros Hk. destruct (decide (k ∈ writes item)) as [Hin|Hout]; [by right|].
  left. by rewrite summarize_step_other in Hk.
Qed.

Lemma summarize_fold_origin (n : Z) (items : list (string * metric))
    (s : gmap string R) (k : string) :
  is_Some (foldl (summarize_step n) s items !! k) →
  is_Some (s !! k) ∨ written items k.
Proof.
  revert s. induction items as [|item items IH]; intros s Hk; [by left|].
  simpl in Hk. destruct (IH _ Hk) as [Hs|(item' & Hin & Hw)].
  - destruct (summarize_step_origin _ _ _ _ Hs) as [?|Hw]; [by left|].
    right. exists item. split; [apply list_elem_of_here|done].
  - right. exists item'. split; [by apply list_elem_of_further|done].
Qed.

Lemma summarize_loop_written_iff (metrics : list (string * metric)) (n : Z)
    (k : string) :
  is_Some (summarize_loop metrics n !! k) ↔ written metrics k.
Proof.
  split.
  - intros Hk. unfold summarize_loop in Hk.
    destruct (summarize_fold_origin _ _ _ _ Hk) as [Hs|Hw]; [|done].
    rewrite lookup_empty in Hs. by destruct Hs.
  - intros (item & Hin & Hw). by eapply summarize_loop_written.
Qed.

(** X1: a summary returned by [summarize_metrics] has an entry for exactly
    the metric keys and the list-valued metric keys suffixed with
    ["_std"]: it holds nothing else and drops no metric. *)
Theorem summarize_metrics_keys (metrics : list (string * metric)) (n : Z)
    (summary : gmap string R) (k : string) :
  summarize_metrics metrics n = Returns summary →
  (is_Some (summary !! k) ↔
   ∃ key val, (key, val) ∈ metrics ∧
     (k = key ∨ ∃ l, val = MList l ∧ k = key +:+ "_std")).
Proof.
  unfold summarize_metrics. intros Hret.
  repeat match type of Hret with
  | context [getitem ?d ?key ≫= _] =>
      destruct (getitem d key); [cbn [mbind outcome_bind] in Hret|done]
  end.
  injection Hret as <-. rewrite summarize_loop_written_iff. unfold written.
  split.
  - intros ([key val] & Hin & Hw). exists key, val. split; [done|].
    unfold writes in Hw. destruct val as [l|x]; simpl in Hw;
      revert Hw; rewrite ?elem_of_cons, elem_of_nil; naive_solver.
  - intros (key & val & Hin & Hk). exists (key, val). split; [done|].
    unfold writes. destruct Hk as [->|(l & -> & ->)]; simpl.
    + destruct val; apply list_elem_of_here.
    + apply list_elem_of_further, list_elem_of_here.
Qed.

Lemma summarize_metrics_keys_witness :
  let metrics := [("kld_loss", MScalar 6); ("rec_loss", MScalar 4);
                  ("mse", MList [1; 3])] in
  is_Some (summarize_loop metrics 2 !! "mse_std") ↔
  ∃ key val, (key, val) ∈ metrics ∧
    ("mse_std" = key ∨ ∃ l, val = MList l ∧ "mse_std" = key +:+ "_std").
Proof.
  intros metrics.
  apply (summarize_metrics_keys metrics 2 (summarize_loop metrics 2) "mse_std").
  apply summarize_metrics_returns. solve_printable.
Defined.

(** X2: for a nonzero [n_timesteps], [summarize_metrics] raises [KeyError]
    for the first of the keys ['kld_loss'], ['rec_loss'], ['mse'],
    ['mse_std'] that no metric assigns, whatever else the dict holds. *)
Theorem summarize_metrics_KeyError (metrics : list (string * metric)) (n : Z)
    (found missing : list string) (k : string) :
  n ≠ 0%Z →
  printed_keys = found ++ k :: missing →
  Forall (written metrics) found →
  ¬ written metrics k →
  summarize_metrics metrics n = Raises (KeyError k).
Proof.
  intros _ Hkeys Hfound Hk. unfold summarize_metrics.
  assert (summarize_loop metrics n !! k = None) as Hnone.
  { apply eq_None_not_Some. by rewrite summarize_loop_written_iff. }
  assert (∀ k', k' ∈ found →
            ∃ v, getitem (summarize_loop metrics n) k' = Returns v) as Hget.
  { intros k' Hin. rewrite Forall_forall in Hfound.
    apply Hfound, (summarize_loop_written_iff _ n) in Hin as [v Hv].
    exists v. by apply getitem_Returns. }
  unfold printed_keys in Hkeys.
  destruct found as [|k1 [|k2 [|k3 [|k4 found]]]];
    simplify_eq/=;
    repeat match goal with
    | |- context [getitem _ ?key ≫= _] =>
        first [ rewrite (getitem_Raises _ key Hnone); reflexivity
              | let v := fresh "v" in
                destruct (Hget key) as [v ->];
                [set_solver|cbn [mbind outcome_bind]] ]
    end.
  destruct found; discriminate.
Qed.

Lemma summarize_metrics_KeyError_witness :
  summarize_metrics [("kld_loss", MScalar 6); ("mse", MList [1; 3])] 2
  = Raises (KeyError "rec_loss").
Proof.
  apply (summarize_metrics_KeyError _ 2 ["kld_loss"] ["mse"; "mse_std"]).
  - done.
  - reflexivity.
  - apply Forall_cons_2; [|apply Forall_nil_2]. find_writer.
  - intros (item & Hin & Hw). unfold writes in Hw.
    repeat (apply elem_of_cons in Hin as [->|Hin]); simpl in Hw;
      [set_solver..|by apply elem_of_nil in Hin].
Defined.

(** ** [summarize_metrics] does not depend on the iteration order *)

(** What an item stores under a key it writes does not depend on the
    summary so far. *)
Lemma summarize_step_value (n : Z) (s s' : gmap string R)
    (item : string * metric) (k : string) :
  k ∈ writes item →
  summarize_step n s item !! k = summarize_step n s' item !! k.
Proof.
  destruct item as [key [l|x]]; unfold writes; simpl; intros Hk;
    rewrite !lookup_insert; repeat case_decide; try done;
    exfalso; revert Hk; rewrite ?elem_of_cons, elem_of_nil; naive_solver.
Qed.

Lemma summarize_step_comm (n : Z) (s : gmap string R)
    (a1 a2 : string * metric) :
  (∀ k, k ∈ writes a1 → k ∉ writes a2) →
  summarize_step n (summarize_step n s a1) a2
  = summarize_step n (summarize_step n s a2) a1.
Proof.
  intros Hdisj. apply map_eq. intros k.
  destruct (decide (k ∈ writes a1)) as [H1|H1].
  - rewrite (summarize_step_other n _ a2) by auto.
    by apply summarize_step_value.
  - rewrite (summarize_step_other n _ a1 k) by done.
    destruct (decide (k ∈ writes a2)) as [H2|H2].
    + by apply summarize_step_value.
    + by rewrite !summarize_step_other.
Qed.

Lemma summarize_fold_Permutation (n : Z) (l l' : list (string * metric)) :
  l ≡ₚ l' →
  (∀ a1 a2, a1 ∈ l → a2 ∈ l → a1 ≠ a2 → ∀ k, k ∈ writes a1 → k ∉ writes a2) →
  ∀ s, foldl (summarize_step n) s l = foldl (summarize_step n) s l'.
Proof.
  induction 1 as [|x l l' Hperm IH|x y l|l l' l'' Hperm IH Hperm' IH'];
    intros Hdisj s.
  - done.
  - simpl. apply IH. intros a1 a2 H1 H2.
    apply Hdisj; by apply list_elem_of_further.
  - simpl. destruct (Classical_Prop.classic (x = y)) as [->|Hne]; [done|].
    f_equal. apply summarize_step_comm.
    apply Hdisj; [apply list_elem_of_here| |congruence].
    apply list_elem_of_further, list_elem_of_here.
  - rewrite IH by done. apply IH'. intros a1 a2 H1 H2.
    apply Hdisj; by rewrite Hperm.
Qed.

Lemma dict_items_key_inj (metrics : list (string * metric))
    (a1 a2 : string * metric) :
  NoDup (metrics.*1) → a1 ∈ metrics → a2 ∈ metrics → a1.1 = a2.1 → a1 = a2.
Proof.
  intros Hnd H1 H2 Hkey.
  apply list_elem_of_lookup in H1 as [i Hi].
  apply list_elem_of_lookup in H2 as [j Hj].
  assert (i = j) as ->; [|congruence].
  apply (NoDup_lookup _ i j a1.1 Hnd).
  - by rewrite list_lookup_fmap, Hi.
  - by rewrite list_lookup_fmap, Hj, Hkey.
Qed.

Lemma writes_disjoint (metrics : list (string * metric))
    (a1 a2 : string * metric) :
  NoDup (metrics.*1) → collision_free metrics →
  a1 ∈ metrics → a2 ∈ metrics → a1 ≠ a2 →
  ∀ k, k ∈ writes a1 → k ∉ writes a2.
Proof.
  intros Hnd Hfree H1 H2 Hne k Hk1 Hk2.
  assert (a1.1 ≠ a2.1) as Hkeys
    by (intros Heq; by apply Hne, (dict_items_key_inj metrics)).
  pose proof (Hfree a1 a2 H1 H2) as H12.
  pose proof (Hfree a2 a1 H2 H1) as H21.
  destruct a1 as [k1 [l1|x1]], a2 as [k2 [l2|x2]]; unfold writes in *;
    simpl in *; revert Hk1 Hk2; rewrite ?elem_of_cons, !elem_of_nil;
    intros Hk1 Hk2; destruct_or?; simplify_eq; try done;
    try (by eapply H12; eauto); try (by eapply H21; eauto).
  by apply Hkeys, (append_cancel_r _ _ "_std").
Qed.

(** X3: for a dict in which no key is a list-valued key suffixed with
    ["_std"], the result of [summarize_metrics], summary or exception, is
    the same in whatever order the dict is iterated. *)
Theorem summarize_metrics_order_independent
    (metrics metrics' : list (string * metric)) (n : Z) :
  NoDup (metrics.*1) → collision_free metrics → metrics ≡ₚ metrics' →
  summarize_metrics metrics n = summarize_metrics metrics' n.
Proof.
  intros Hnd Hfree Hperm. unfold summarize_metrics, summarize_loop.
  rewrite (summarize_fold_Permutation n metrics metrics' Hperm); [done|].
  intros a1 a2 H1 H2 Hne. by apply (writes_disjoint metrics).
Qed.

Lemma summarize_metrics_order_independent_witness :
  summarize_metrics [("kld_loss", MScalar 6); ("rec_loss", MScalar 4);
                     ("mse", MList [1; 3])] 2
  = summarize_metrics [("rec_loss", MScalar 4); ("kld_loss", MScalar 6);
                       ("mse", MList [1; 3])] 2.
Proof.
  apply summarize_metrics_order_independent.
  - solve_NoDup.
  - intros item item' Hin Hin' [l Hl] Heq.
    repeat (apply elem_of_cons in Hin' as [->|Hin']); simpl in Hl;
      try discriminate; [|by apply elem_of_nil in Hin'].
    repeat (apply elem_of_cons in Hin as [->|Hin]);
      [vm_compute in Heq; discriminate..|by apply elem_of_nil in Hin].
  - apply perm_swap.
Defined.

(** ** [compute_metrics]: what it returns and when it raises *)

(** The value of [compute_metrics] on well-shaped tensors, when [range]
    returns a list. *)
Lemma compute_metrics_Returns (kld rec : R)
    (recon : list (string * (list (list (list R)) * list (list (list R)))))
    (targets : gmap string (list (list (list R))))
    (mask : list (list (list bool))) (lengths : list Z) (order : list nat)
    (T B D : nat) :
  recon ≠ [] →
  Forall (λ item, shape3 T B D item.2.1 ∧
                  ∃ tgt, targets !! item.1 = Some tgt ∧ shape3 T B D tgt)
         recon →
  shape3 T B 1 mask →
  length lengths = B →
  torch.index_select
    (tabulate B (masked_time_average recon targets mask lengths T D)) order
  ≫= (λ mse, mret [("kld_loss", MScalar kld); ("rec_loss", MScalar rec);
                    ("mse", MList mse)])
  = compute_metrics Python2 kld rec recon targets mask lengths order.
Proof.
  intros Hne Hrecon Hmask Hlen. unfold compute_metrics.
  rewrite (mapM_Returns_fmap _
             (λ item, tabulate T (λ t, tabulate B (λ b, tabulate D
                        (sq_error_at targets item t b))))).
  2:{ eapply Forall_impl; [exact Hrecon|].
      intros item (Hmu & tgt & Htgt & Hshape). by eapply sq_error_tabulate. }
  destruct recon as [|item rest]; [done|].
  cbn [mbind outcome_bind fmap list_fmap py_sum mret outcome_ret].
  rewrite (foldl_add_tabulate T B D (sq_error_at targets) rest).
  cbn [sum_over_range mbind outcome_bind mret outcome_ret].
  rewrite sum_from_dim2_tabulate, time_avg_tabulate by done.
  do 2 f_equal. apply tabulate_ext. intros b _.
  unfold masked_time_average. f_equal.
  apply sum_upto_ext. intros t _. destruct (mask_at mask t b); [|done].
  unfold step_sq_error. apply sum_upto_ext. intros d _.
  by rewrite foldl_Rplus_sum.
Qed.

Lemma sq_error_is_Returns (targets : gmap string (list (list (list R))))
    (item : string * (list (list (list R)) * list (list (list R)))) :
  is_Some (targets !! item.1) → ∃ e, sq_error targets item = Returns e.
Proof.
  intros [tgt Htgt]. unfold sq_error.
  rewrite (getitem_Returns _ _ _ Htgt). by eexists.
Qed.

(** X5: if a modality of [recon] has no entry in [targets], and the
    modalities iterated before it have targets of the shape of their
    reconstruction, [compute_metrics] raises [KeyError] for that modality,
    under either interpreter. *)
Theorem compute_metrics_missing_target (py : python) (kld rec : R)
    (pre post : list (string * (list (list (list R)) * list (list (list R)))))
    (m : string) (rc : list (list (list R)) * list (list (list R)))
    (targets : gmap string (list (list (list R))))
    (mask : list (list (list bool))) (lengths : list Z) (order : list nat) :
  Forall (λ item, ∃ tgt T B D, targets !! item.1 = Some tgt ∧
                               shape3 T B D item.2.1 ∧ shape3 T B D tgt)
         pre →
  targets !! m = None →
  compute_metrics py kld rec (pre ++ (m, rc) :: post) targets mask lengths
                  order
  = Raises (KeyError m).
Proof.
  intros Hpre Hm. unfold compute_metrics.
  rewrite (mapM_Raises _ _ _ _ (KeyError m)); [done| |].
  - eapply Forall_impl; [exact Hpre|].
    intros item (tgt & T & B & D & Htgt & _). apply sq_error_is_Returns.
    by rewrite Htgt.
  - unfold sq_error. simpl. by rewrite (getitem_Raises _ _ Hm).
Qed.

Lemma compute_metrics_missing_target_witness :
  compute_metrics Python3 5 7
    [("spiral-x", ([[[1]]], [[[1]]])); ("spiral-y", ([[[2]]], [[[1]]]))]
    {["spiral-x" := [[[0]]]]} [[[true]]] [1%Z] [0%nat]
  = Raises (KeyError "spiral-y").
Proof.
  apply (compute_metrics_missing_target Python3 5 7
           [("spiral-x", ([[[1]]], [[[1]]]))] [] "spiral-y").
  - apply Forall_cons_2; [|apply Forall_nil_2]. simpl.
    exists [[[0]]], 1%nat, 1%nat, 1%nat.
    split; [apply lookup_singleton_eq|]. split; by repeat constructor.
  - by apply lookup_singleton_ne.
Defined.

Lemma index_select_Raises (B : nat) (f : nat → R) (pre post : list nat)
    (b : nat) :
  Forall (λ i, (i < B)%nat) pre → (B ≤ b)%nat →
  torch.index_select (tabulate B f) (pre ++ b :: post) = Raises IndexError.
Proof.
  intros Hpre Hb. apply mapM_Raises.
  - eapply Forall_impl; [exact Hpre|]. intros i Hi. simpl in Hi.
    exists (f i). apply index_Returns. by apply lookup_tabulate.
  - unfold index. rewrite lookup_ge_None_2; [done|].
    by rewrite length_tabulate.
Qed.

(** X6: under Python 2 and on well-shaped tensors, an entry of [order]
    that is not the index of a sequence of the batch makes
    [compute_metrics] raise [IndexError]. *)
Theorem compute_metrics_order_out_of_range (kld rec : R)
    (recon : list (string * (list (list (list R)) * list (list (list R)))))
    (targets : gmap string (list (list (list R))))
    (mask : list (list (list bool))) (lengths : list Z)
    (pre post : list nat) (b T B D : nat) :
  recon ≠ [] →
  Forall (λ item, shape3 T B D item.2.1 ∧
                  ∃ tgt, targets !! item.1 = Some tgt ∧ shape3 T B D tgt)
         recon →
  shape3 T B 1 mask →
  length lengths = B →
  Forall (λ i, (i < B)%nat) pre → (B ≤ b)%nat →
  compute_metrics Python2 kld rec recon targets mask lengths
                  (pre ++ b :: post)
  = Raises IndexError.
Proof.
  intros Hne Hrecon Hmask Hlen Hpre Hb.
  rewrite <- (compute_metrics_Returns kld rec recon targets mask lengths
                _ T B D) by done.
  by rewrite index_select_Raises.
Qed.

Lemma compute_metrics_order_out_of_range_witness :
  compute_metrics Python2 5 7 [("spiral-x", ([[[1]; [2]]], [[[1]; [1]]]))]
    {["spiral-x" := [[[0]; [0]]]]} [[[true]; [true]]] [1; 1]%Z [1; 2; 0]%nat
  = Raises IndexError.
Proof.
  apply (compute_metrics_order_out_of_range 5 7
           [("spiral-x", ([[[1]; [2]]], [[[1]; [1]]]))]
           {["spiral-x" := [[[0]; [0]]]]} [[[true]; [true]]] [1; 1]%Z
           [1%nat] [0%nat] 2 1 2 1).
  - discriminate.
  - apply Forall_cons_2; [|apply Forall_nil_2]. simpl.
    split; [by repeat constructor|]. eexists. split.
    + apply lookup_singleton_eq.
    + by repeat constructor.
  - by repeat constructor.
  - reflexivity.
  - repeat constructor.
  - lia.
Defined.

Lemma compute_metrics_inv (py : python) (kld rec : R)
    (recon : list (string * (list (list (list R)) * list (list (list R)))))
    (targets : gmap string (list (list (list R))))
    (mask : list (list (list bool))) (lengths : list Z) (order : list nat)
    (metrics : list (string * metric)) :
  compute_metrics py kld rec recon targets mask lengths order
  = Returns metrics →
  ∃ mse, metrics = [("kld_loss", MScalar kld); ("rec_loss", MScalar rec);
                    ("mse", MList mse)] ∧
         length mse = length order.
Proof.
  unfold compute_metrics. intros Hret.
  destruct (mapM (sq_error targets) recon) as [errs|]; [|done].
  cbn [mbind outcome_bind] in Hret.
  destruct (py_sum errs) as [total|]; [|done].
  cbn [mbind outcome_bind] in Hret.
  destruct (sum_over_range py total) as [summed|]; [|done].
  cbn [mbind outcome_bind] in Hret.
  match type of Hret with
  | context [torch.index_select ?a ?o] =>
      destruct (torch.index_select a o) as [mse|] eqn:Hsel; [|done]
  end.
  cbn [mbind outcome_bind] in Hret. injection Hret as <-.
  exists mse. split; [done|].
  apply mapM_Returns_inv, Forall2_length in Hsel. done.
Qed.

(** X7: whenever [compute_metrics] returns, the dict has exactly the keys
    ['kld_loss'], ['rec_loss'] and ['mse'], in this order, the two losses
    as given by the model and ['mse'] a list with one value per entry of
    [order]. *)
Theorem compute_metrics_result_shape (py : python) (kld rec : R)
    (recon : list (string * (list (list (list R)) * list (list (list R)))))
    (targets : gmap string (list (list (list R))))
    (mask : list (list (list bool))) (lengths : list Z) (order : list nat)
    (metrics : list (string * metric)) :
  compute_metrics py kld rec recon targets mask lengths order
  = Returns metrics →
  ∃ mse, metrics = [("kld_loss", MScalar kld); ("rec_loss", MScalar rec);
                    ("mse", MList mse)] ∧
         length mse = length order.
Proof. apply compute_metrics_inv. Qed.

Lemma compute_metrics_value (kld rec : R)
    (recon : list (string * (list (list (list R)) * list (list (list R)))))
    (targets : gmap string (list (list (list R))))
    (mask : list (list (list bool))) (lengths : list Z) (order : list nat)
    (T B D : nat) :
  recon ≠ [] →
  Forall (λ item, shape3 T B D item.2.1 ∧
                  ∃ tgt, targets !! item.1 = Some tgt ∧ shape3 T B D tgt)
         recon →
  shape3 T B 1 mask →
  length lengths = B →
  Forall (λ b, (b < B)%nat) order →
  compute_metrics Python2 kld rec recon targets mask lengths order
  = Returns [("kld_loss", MScalar kld); ("rec_loss", MScalar rec);
             ("mse", MList (masked_time_average recon targets mask
                              lengths T D <$> order))].
Proof.
  intros Hne Hrecon Hmask Hlen Horder.
  rewrite <- (compute_metrics_Returns kld rec recon targets mask lengths
                _ T B D) by done.
  by rewrite index_select_tabulate.
Qed.

Lemma compute_metrics_result_shape_witness :
  ∃ mse,
    [("kld_loss", MScalar 5); ("rec_loss", MScalar 7);
     ("mse", MList (masked_time_average
                      [("spiral-x", ([[[1]; [2]]], [[[1]; [1]]]))]
                      {["spiral-x" := [[[0]; [0]]]]} [[[true]; [true]]]
                      [1; 1]%Z 1 1 <$> [1; 0]%nat))]
    = [("kld_loss", MScalar 5); ("rec_loss", MScalar 7); ("mse", MList mse)] ∧
    length mse = length [1; 0]%nat.
Proof.
  apply (compute_metrics_result_shape Python2 5 7
           [("spiral-x", ([[[1]; [2]]], [[[1]; [1]]]))]
           {["spiral-x" := [[[0]; [0]]]]} [[[true]; [true]]] [1; 1]%Z
           [1; 0]%nat).
  apply (compute_metrics_value _ _ _ _ _ _ _ 1 2 1).
  - discriminate.
  - apply Forall_cons_2; [|apply Forall_nil_2]. simpl.
    split; [by repeat constructor|]. eexists. split.
    + apply lookup_singleton_eq.
    + by repeat constructor.
  - by repeat constructor.
  - reflexivity.
  - repeat constructor; lia.
Defined.

(** ** [compute_metrics]: properties of the mean squared error *)

Lemma np_sum_zero (l : list R) : Forall (λ x, x = 0) l → np.sum l = 0.
Proof.
  unfold np.sum. induction 1 as [|x l -> _ IH]; simpl; [done|].
  rewrite IH. lra.
Qed.

Lemma np_sum_nonneg (l : list R) : Forall (λ x, 0 <= x) l → 0 <= np.sum l.
Proof.
  unfold np.sum. induction 1 as [|x l Hx _ IH]; simpl; lra.
Qed.

Lemma sum_upto_zero (n : nat) (f : nat → R) :
  (∀ i, (i < n)%nat → f i = 0) → sum_upto n f = 0.
Proof.
  intros H. unfold sum_upto. apply np_sum_zero, Forall_fmap, Forall_forall.
  intros i Hi. apply elem_of_seq in Hi. simpl. apply H. lia.
Qed.

Lemma sum_upto_nonneg (n : nat) (f : nat → R) :
  (∀ i, (i < n)%nat → 0 <= f i) → 0 <= sum_upto n f.
Proof.
  intros H. unfold sum_upto. apply np_sum_nonneg, Forall_fmap, Forall_forall.
  intros i Hi. apply elem_of_seq in Hi. simpl. apply H. lia.
Qed.

Lemma step_sq_error_nonneg
    (recon : list (string * (list (list (list R)) * list (list (list R)))))
    (targets : gmap string (list (list (list R)))) (D t b : nat) :
  0 <= step_sq_error recon targets D t b.
Proof.
  unfold step_sq_error. apply sum_upto_nonneg. intros d _.
  apply np_sum_nonneg, Forall_fmap, Forall_forall. intros item _. simpl.
  unfold sq_error_at. apply pow2_ge_0.
Qed.

(** X8: under Python 2 and on a well-shaped batch with nonzero lengths, a
    reconstruction equal to the targets has mean squared error [0] for
    every sequence. *)
Theorem compute_metrics_perfect_reconstruction (kld rec : R)
    (recon : list (string * (list (list (list R)) * list (list (list R)))))
    (targets : gmap string (list (list (list R))))
    (mask : list (list (list bool))) (lengths : list Z) (order : list nat)
    (T B D : nat) :
  recon ≠ [] →
  Forall (λ item, shape3 T B D item.2.1 ∧
                  targets !! item.1 = Some item.2.1) recon →
  shape3 T B 1 mask →
  length lengths = B →
  Forall (λ len, len ≠ 0%Z) lengths →
  Forall (λ b, (b < B)%nat) order →
  compute_metrics Python2 kld rec recon targets mask lengths order
  = Returns [("kld_loss", MScalar kld); ("rec_loss", MScalar rec);
             ("mse", MList ((λ _, 0) <$> order))].
Proof.
  intros Hne Hrecon Hmask Hlen _ Horder.
  rewrite (compute_metrics_value kld rec recon targets mask lengths order
             T B D); try done.
  - do 6 f_equal. apply list_fmap_ext. intros _ b _.
    unfold masked_time_average.
    rewrite sum_upto_zero; [unfold Rdiv; apply Rmult_0_l|].
    intros t _. destruct (mask_at mask t b); [|done].
    unfold step_sq_error. apply sum_upto_zero. intros d _.
    apply np_sum_zero, Forall_fmap.
    eapply Forall_impl; [exact Hrecon|]. intros item [_ Htgt]. simpl.
    unfold sq_error_at. rewrite Htgt. simpl. lra.
  - eapply Forall_impl; [exact Hrecon|]. intros item [Hs Htgt]. eauto.
Qed.

Lemma compute_metrics_perfect_reconstruction_witness :
  compute_metrics Python2 5 7
    [("spiral-x", ([[[1]; [2]]; [[3]; [4]]], [[[1]; [1]]; [[1]; [1]]]))]
    {["spiral-x" := [[[1]; [2]]; [[3]; [4]]]]}
    [[[true]; [true]]; [[true]; [false]]] [2; 1]%Z [1; 0]%nat
  = Returns [("kld_loss", MScalar 5); ("rec_loss", MScalar 7);
             ("mse", MList [0; 0])].
Proof.
  apply (compute_metrics_perfect_reconstruction 5 7
           [("spiral-x", ([[[1]; [2]]; [[3]; [4]]], [[[1]; [1]]; [[1]; [1]]]))]
           {["spiral-x" := [[[1]; [2]]; [[3]; [4]]]]}
           [[[true]; [true]]; [[true]; [false]]] [2; 1]%Z [1; 0]%nat 2 2 1).
  - discriminate.
  - apply Forall_cons_2; [|apply Forall_nil_2]. simpl.
    split; [by repeat constructor|]. apply lookup_singleton_eq.
  - by repeat constructor.
  - reflexivity.
  - by repeat constructor.
  - repeat constructor; lia.
Defined.

(** X9: under Python 2 and on a well-shaped batch with positive sequence
    lengths, every value of the ['mse'] list is non-negative. *)
Theorem compute_metrics_nonneg (kld rec : R)
    (recon : list (string * (list (list (list R)) * list (list (list R)))))
    (targets : gmap string (list (list (list R))))
    (mask : list (list (list bool))) (lengths : list Z) (order : list nat)
    (T B D : nat) :
  recon ≠ [] →
  Forall (λ item, shape3 T B D item.2.1 ∧
                  ∃ tgt, targets !! item.1 = Some tgt ∧ shape3 T B D tgt)
         recon →
  shape3 T B 1 mask →
  length lengths = B →
  Forall (λ b, (b < B)%nat) order →
  Forall (λ len, (0 < len)%Z) lengths →
  ∃ mse,
    compute_metrics Python2 kld rec recon targets mask lengths order
    = Returns [("kld_loss", MScalar kld); ("rec_loss", MScalar rec);
               ("mse", MList mse)] ∧
    Forall (λ x, 0 <= x) mse.
Proof.
  intros Hne Hrecon Hmask Hlen Horder Hpos.
  eexists. split; [by apply (compute_metrics_value _ _ _ _ _ _ _ T B D)|].
  apply Forall_fmap. eapply Forall_impl; [exact Horder|].
  intros b Hb. simpl in *. unfold masked_time_average.
  destruct (lookup_lt_is_Some_2 lengths b) as [len Hl]; [lia|].
  rewrite Hl. simpl.
  pose proof (Forall_lookup_1 _ _ _ _ Hpos Hl) as Hlen_pos. simpl in Hlen_pos.
  unfold Rdiv. apply Rle_mult_inv_pos.
  - apply sum_upto_nonneg. intros t _.
    destruct (mask_at mask t b); [apply step_sq_error_nonneg|lra].
  - by apply IZR_lt.
Qed.

Lemma compute_metrics_nonneg_witness :
  ∃ mse,
    compute_metrics Python2 5 7
      [("spiral-x", ([[[1]; [2]]], [[[1]; [1]]]))]
      {["spiral-x" := [[[0]; [0]]]]} [[[true]; [true]]] [1; 1]%Z [1; 0]%nat
    = Returns [("kld_loss", MScalar 5); ("rec_loss", MScalar 7);
               ("mse", MList mse)] ∧
    Forall (λ x, 0 <= x) mse.
Proof.
  apply (compute_metrics_nonneg 5 7
           [("spiral-x", ([[[1]; [2]]], [[[1]; [1]]]))]
           {["spiral-x" := [[[0]; [0]]]]} [[[true]; [true]]] [1; 1]%Z
           [1; 0]%nat 1 2 1).
  - discriminate.
  - apply Forall_cons_2; [|apply Forall_nil_2]. simpl.
    split; [by repeat constructor|]. eexists. split.
    + apply lookup_singleton_eq.
    + by repeat constructor.
  - by repeat constructor.
  - reflexivity.
  - repeat constructor; lia.
  - repeat constructor; lia.
Defined.

(** X10: the ['mse'] metric only depends on the time-steps inside the
    mask: under Python 2 and on well-shaped batches with nonzero lengths,
    two reconstructions of the same modalities that agree wherever the
    mask is set give the same ['mse'] list, whatever losses the model
    returns for each. *)
Theorem compute_metrics_masked_steps_ignored (kld rec kld' rec' : R)
    (recon recon' : list (string * (list (list (list R)) * list (list (list R)))))
    (targets : gmap string (list (list (list R))))
    (mask : list (list (list bool))) (lengths : list Z) (order : list nat)
    (T B D : nat) :
  recon ≠ [] →
  Forall (λ item, shape3 T B D item.2.1 ∧
                  ∃ tgt, targets !! item.1 = Some tgt ∧ shape3 T B D tgt)
         recon →
  Forall (λ item, shape3 T B D item.2.1) recon' →
  Forall2 (λ item item',
             item.1 = item'.1 ∧
             ∀ t b d, mask_at mask t b = true →
                      at3 item.2.1 t b d = at3 item'.2.1 t b d)
          recon recon' →
  shape3 T B 1 mask →
  length lengths = B →
  Forall (λ len, len ≠ 0%Z) lengths →
  Forall (λ b, (b < B)%nat) order →
  ∃ mse,
    compute_metrics Python2 kld rec recon targets mask lengths order
    = Returns [("kld_loss", MScalar kld); ("rec_loss", MScalar rec);
               ("mse", MList mse)] ∧
    compute_metrics Python2 kld' rec' recon' targets mask lengths order
    = Returns [("kld_loss", MScalar kld'); ("rec_loss", MScalar rec');
               ("mse", MList mse)].
Proof.
  intros Hne Hrecon Hshape' Hagree Hmask Hlen _ Horder.
  eexists. split.
  { by apply (compute_metrics_value kld rec recon targets mask lengths order
                T B D). }
  rewrite (compute_metrics_value kld' rec' recon' targets mask lengths order
             T B D); try done.
  - do 6 f_equal. apply list_fmap_ext. intros _ b _.
    unfold masked_time_average. f_equal.
    apply sum_upto_ext. intros t _.
    destruct (mask_at mask t b) eqn:Hm; [|done].
    unfold step_sq_error. apply sum_upto_ext. intros d _. f_equal.
    symmetry. apply fmap_Forall2_eq.
    eapply Forall2_impl; [exact Hagree|].
    intros item item' [Hkey Hval]. unfold sq_error_at.
    by rewrite Hkey, (Hval t b d Hm).
  - intros ->. apply Forall2_nil_inv_r in Hagree. done.
  - clear Hne. induction Hagree as [|item item' l l' [Hkey _] _ IH];
      [constructor|].
    apply Forall_cons in Hrecon as [(_ & tgt & Htgt & Hs) Hrecon].
    apply Forall_cons in Hshape' as [Hs' Hshape'].
    constructor; [|by apply IH].
    split; [done|]. exists tgt. by rewrite <- Hkey.
Qed.

Lemma compute_metrics_masked_steps_ignored_witness :
  ∃ mse,
    compute_metrics Python2 5 7
      [("spiral-x", ([[[1]; [2]]; [[3]; [4]]], [[[1]; [1]]; [[1]; [1]]]))]
      {["spiral-x" := [[[0]; [0]]; [[1]; [1]]]]}
      [[[true]; [true]]; [[true]; [false]]] [2; 1]%Z [1; 0]%nat
    = Returns [("kld_loss", MScalar 5); ("rec_loss", MScalar 7);
               ("mse", MList mse)] ∧
    compute_metrics Python2 6 8
      [("spiral-x", ([[[1]; [2]]; [[3]; [9]]], [[[1]; [1]]; [[1]; [1]]]))]
      {["spiral-x" := [[[0]; [0]]; [[1]; [1]]]]}
      [[[true]; [true]]; [[true]; [false]]] [2; 1]%Z [1; 0]%nat
    = Returns [("kld_loss", MScalar 6); ("rec_loss", MScalar 8);
               ("mse", MList mse)].
Proof.
  apply (compute_metrics_masked_steps_ignored 5 7 6 8 _ _ _ _ _ _ 2 2 1).
  - discriminate.
  - apply Forall_cons_2; [|apply Forall_nil_2]. simpl.
    split; [by repeat constructor|]. eexists. split.
    + apply lookup_singleton_eq.
    + by repeat constructor.
  - apply Forall_cons_2; [|apply Forall_nil_2]. by repeat constructor.
  - apply Forall2_cons_2; [|apply Forall2_nil_2]. split; [done|].
    intros [|[|t]] [|[|b]] d Hm; try done.
    all: by destruct t.
  - by repeat constructor.
  - reflexivity.
  - by repeat constructor.
  - repeat constructor; lia.
Defined.

(** ** [compute_metrics] followed by [summarize_metrics] *)

Lemma summarize_batch_metrics (kld rec : R) (mse : list R) (n : Z) :
  let summary :=
    summarize_loop [("kld_loss", MScalar kld); ("rec_loss", MScalar rec);
                    ("mse", MList mse)] n in
  summarize_metrics [("kld_loss", MScalar kld); ("rec_loss", MScalar rec);
                     ("mse", MList mse)] n = Returns summary ∧
  summary !! "kld_loss" = Some (kld / IZR n) ∧
  summary !! "rec_loss" = Some (rec / IZR n) ∧
  summary !! "mse" = Some (arithmetic_mean mse) ∧
  summary !! "mse_std" = Some (population_std mse).
Proof.
  intros summary. split; [apply summarize_metrics_returns; solve_printable|].
  unfold summary, summarize_loop. cbn [foldl summarize_step].
  change ("mse" +:+ "_std") with "mse_std".
  split; [|split; [|split]].
  - do 3 (rewrite lookup_insert_ne by done). by rewrite lookup_insert_eq.
  - do 2 (rewrite lookup_insert_ne by done). by rewrite lookup_insert_eq.
  - rewrite lookup_insert_ne by done. by rewrite lookup_insert_eq.
  - by rewrite lookup_insert_eq, np_std_population_std.
Qed.

(** X11: the metrics of a batch can be summarized: for a nonzero
    [n_timesteps], nonzero lengths and a non-empty [order], whenever
    [compute_metrics] returns, [summarize_metrics] returns on its result,
    with the two losses divided by [n_timesteps] and the mean and the
    population standard deviation of the ['mse'] list. *)
Theorem compute_then_summarize (py : python) (kld rec : R)
    (recon : list (string * (list (list (list R)) * list (list (list R)))))
    (targets : gmap string (list (list (list R))))
    (mask : list (list (list bool))) (lengths : list Z) (order : list nat)
    (metrics : list (string * metric)) (n_timesteps : Z) :
  n_timesteps ≠ 0%Z →
  order ≠ [] →
  Forall (λ len, len ≠ 0%Z) lengths →
  compute_metrics py kld rec recon targets mask lengths order
  = Returns metrics →
  ∃ mse summary,
    (("mse", MList mse) ∈ metrics) ∧ mse ≠ [] ∧
    summarize_metrics metrics n_timesteps = Returns summary ∧
    summary !! "kld_loss" = Some (kld / IZR n_timesteps) ∧
    summary !! "rec_loss" = Some (rec / IZR n_timesteps) ∧
    summary !! "mse" = Some (arithmetic_mean mse) ∧
    summary !! "mse_std" = Some (population_std mse).
Proof.
  intros _ Horder _ Hret.
  apply compute_metrics_inv in Hret as (mse & -> & Hlen).
  exists mse. eexists. split; [solve_elem_of|].
  split; [by destruct mse, order|].
  apply summarize_batch_metrics.
Qed.

Lemma compute_then_summarize_witness :
  ∃ mse summary,
    (("mse", MList mse) ∈
       [("kld_loss", MScalar 5); ("rec_loss", MScalar 7);
        ("mse", MList (masked_time_average
                         [("spiral-x", ([[[1]; [2]]], [[[1]; [1]]]))]
                         {["spiral-x" := [[[0]; [0]]]]} [[[true]; [true]]]
                         [1; 1]%Z 1 1 <$> [1; 0]%nat))]) ∧
    mse ≠ [] ∧
    summarize_metrics
      [("kld_loss", MScalar 5); ("rec_loss", MScalar 7);
       ("mse", MList (masked_time_average
                        [("spiral-x", ([[[1]; [2]]], [[[1]; [1]]]))]
                        {["spiral-x" := [[[0]; [0]]]]} [[[true]; [true]]]
                        [1; 1]%Z 1 1 <$> [1; 0]%nat))] 2 = Returns summary ∧
    summary !! "kld_loss" = Some (5 / IZR 2) ∧
    summary !! "rec_loss" = Some (7 / IZR 2) ∧
    summary !! "mse" = Some (arithmetic_mean mse) ∧
    summary !! "mse_std" = Some (population_std mse).
Proof.
  apply (compute_then_summarize Python2 5 7
           [("spiral-x", ([[[1]; [2]]], [[[1]; [1]]]))]
           {["spiral-x" := [[[0]; [0]]]]} [[[true]; [true]]] [1; 1]%Z
           [1; 0]%nat); [done|done|by repeat constructor|].
  apply (compute_metrics_value _ _ _ _ _ _ _ 1 2 1).
  - discriminate.
  - apply Forall_cons_2; [|apply Forall_nil_2]. simpl.
    split; [by repeat constructor|]. eexists. split.
    + apply lookup_singleton_eq.
    + by repeat constructor.
  - by repeat constructor.
  - reflexivity.
  - repeat constructor; lia.
Defined.

(** ** [default_args]: exceptions, frame and sign *)

Lemma rec_mults_comprehension_app (dims : gmap string Z) (args : Args)
    (corrupt_mult : R) (acc : gmap string R) (pre rest : list string) :
  rec_mults_comprehension dims args corrupt_mult acc (pre ++ rest)
  = (acc' ← rec_mults_comprehension dims args corrupt_mult acc pre;
     rec_mults_comprehension dims args corrupt_mult acc' rest).
Proof.
  revert acc. induction pre as [|m pre IH]; intros acc; [done|].
  simpl. destruct (rec_mult_entry dims args corrupt_mult acc m); [|done].
  simpl. apply IH.
Qed.

(** X13: with [rec_mults] unset, a modality that [self.model.dims] does
    not know makes [default_args] raise [KeyError] for the first such
    modality. *)
Theorem default_args_KeyError (dims : gmap string Z) (args : Args)
    (pre post : list string) (m : string) :
  rec_mults args = None →
  corrupt_uniform args ≠ 1 →
  modalities args = pre ++ m :: post →
  Forall (λ m', ∃ d, dims !! m' = Some d ∧ d ≠ 0%Z) pre →
  dims !! m = None →
  default_args dims args = Raises (KeyError m).
Proof.
  intros Hnone Hu Hmods Hpre Hm. unfold default_args. rewrite Hnone.
  rewrite pydiv_Returns by lra. cbn [mbind outcome_bind].
  rewrite Hmods, rec_mults_comprehension_app.
  rewrite rec_mults_comprehension_Returns.
  - cbn [mbind outcome_bind rec_mults_comprehension].
    unfold rec_mult_entry. by rewrite (getitem_Raises _ _ Hm).
  - rewrite Forall_forall in Hpre |- *. intros m' Hin.
    split; [|by apply Hpre]. rewrite Hmods, elem_of_app. by left.
Qed.

Lemma default_args_KeyError_witness :
  default_args {["spiral-x" := 1%Z]}
    (mkArgs ["spiral-x"; "audio"; "spiral-y"] None ∅ [] "data" "train" "test")
  = Raises (KeyError "audio").
Proof.
  apply (default_args_KeyError _ _ ["spiral-x"] ["spiral-y"] "audio").
  - reflexivity.
  - unfold corrupt_uniform. simpl. rewrite lookup_empty. simpl. lra.
  - reflexivity.
  - apply Forall_cons_2; [|apply Forall_nil_2].
    exists 1%Z. split; [apply lookup_singleton_eq|lia].
  - by apply lookup_singleton_ne.
Defined.

(** X14: with [rec_mults] unset and a uniform corruption fraction of
    exactly [1], [default_args] raises [ZeroDivisionError], whatever the
    modalities and their dimensions. *)
Theorem default_args_uniform_one (dims : gmap string Z) (args : Args) :
  rec_mults args = None →
  corrupt args !! "uniform" = Some 1 →
  default_args dims args = Raises ZeroDivisionError.
Proof.
  intros Hnone Hu. unfold default_args, corrupt_uniform.
  rewrite Hnone, Hu. simpl.
  replace (1 - 1) with 0 by lra. by rewrite pydiv_zero.
Qed.

Lemma default_args_uniform_one_witness :
  default_args ∅ (mkArgs [] None {["uniform" := 1]} [] "data" "train" "test")
  = Raises ZeroDivisionError.
Proof.
  apply default_args_uniform_one; [reflexivity|apply lookup_singleton_eq].
Defined.

(** X15: when [default_args] returns, it has changed nothing but
    [rec_mults], which is then set; applied again, to its own result and
    with any dimensions, it returns that result unchanged. *)
Theorem default_args_frame_idempotent (dims dims' : gmap string Z)
    (args args' : Args) :
  default_args dims args = Returns args' →
  modalities args' = modalities args ∧ corrupt args' = corrupt args ∧
  normalize args' = normalize args ∧ data_dir args' = data_dir args ∧
  train_subdir args' = train_subdir args ∧
  test_subdir args' = test_subdir args ∧
  is_Some (rec_mults args') ∧
  default_args dims' args' = Returns args'.
Proof.
  unfold default_args. destruct (rec_mults args) as [r|] eqn:Hr.
  - intros [= <-]. rewrite Hr. by eauto 10.
  - destruct (pydiv 1 (1 - corrupt_uniform args)) as [cm|]; [|done].
    cbn [mbind outcome_bind].
    destruct (rec_mults_comprehension dims args cm ∅ (modalities args))
      as [r|]; [|done].
    intros [= <-]. simpl. by eauto 10.
Qed.

Lemma default_args_frame_idempotent_witness :
  let args := mkArgs ["spiral-x"] None ∅ ["spiral-x"] "data" "train" "test" in
  let dims : gmap string Z := {["spiral-x" := 1%Z]} in
  let args' :=
    set_rec_mults args
      (<["spiral-x" := default_rec_mult dims args
                         (1 / (1 - corrupt_uniform args)) "spiral-x"]> ∅) in
  modalities args' = modalities args ∧ corrupt args' = corrupt args ∧
  normalize args' = normalize args ∧ data_dir args' = data_dir args ∧
  train_subdir args' = train_subdir args ∧
  test_subdir args' = test_subdir args ∧
  is_Some (rec_mults args') ∧
  default_args ∅ args' = Returns args'.
Proof.
  intros args dims args'.
  apply (default_args_frame_idempotent dims ∅ args args').
  unfold default_args. cbn [rec_mults args].
  rewrite pydiv_Returns.
  - cbn [mbind outcome_bind]. rewrite rec_mults_comprehension_Returns; [done|].
    apply Forall_cons_2; [|apply Forall_nil_2].
    split; [apply list_elem_of_here|].
    exists 1%Z. split; [apply lookup_singleton_eq|lia].
  - unfold corrupt_uniform. simpl. rewrite lookup_empty. simpl. lra.
Defined.

(** X16: with a uniform corruption fraction below [1] and positive
    dimensions for all modalities, [default_args] returns and every
    default multiplier is positive. *)
Theorem default_args_positive (dims : gmap string Z) (args : Args) :
  rec_mults args = None →
  corrupt_uniform args < 1 →
  Forall (λ m, ∃ d, dims !! m = Some d ∧ (0 < d)%Z) (modalities args) →
  ∃ r, default_args dims args = Returns (set_rec_mults args r) ∧
       ∀ m v, r !! m = Some v → 0 < v.
Proof.
  intros Hnone Hu Hdims. unfold default_args. rewrite Hnone.
  rewrite pydiv_Returns by lra. cbn [mbind outcome_bind].
  rewrite rec_mults_comprehension_Returns.
  - eexists. split; [reflexivity|]. intros m v.
    rewrite comprehension_lookup.
    destruct (decide (m ∈ modalities args)) as [Hin|Hout];
      [|by rewrite lookup_empty].
    intros [= <-]. unfold default_rec_mult.
    rewrite Forall_forall in Hdims.
    destruct (Hdims m Hin) as (d & Hd & Hpos). rewrite Hd. simpl.
    assert (0 < IZR d) by (by apply IZR_lt).
    assert (0 < INR (length (modalities args))).
    { apply lt_0_INR. destruct (modalities args); simpl; [|lia].
      by apply elem_of_nil in Hin. }
    assert (0 < 1 - corrupt_uniform args) by lra.
    repeat apply Rmult_lt_0_compat; try lra; by apply Rinv_0_lt_compat.
  - rewrite Forall_forall in Hdims |- *. intros m Hin.
    split; [done|]. destruct (Hdims m Hin) as (d & Hd & Hpos).
    exists d. split; [done|lia].
Qed.

Lemma default_args_positive_witness :
  let args := mkArgs ["spiral-x"; "spiral-y"] None {["uniform" := 0.5]} []
                     "data" "train" "test" in
  ∃ r, default_args {["spiral-x" := 1%Z; "spiral-y" := 1%Z]} args
       = Returns (set_rec_mults args r) ∧
       ∀ m v, r !! m = Some v → 0 < v.
Proof.
  intros args. apply default_args_positive.
  - reflexivity.
  - unfold corrupt_uniform, args. simpl. rewrite lookup_singleton_eq. simpl. lra.
  - unfold args. simpl.
    repeat apply Forall_cons_2; try apply Forall_nil_2.
    + exists 1%Z. split; [|lia]. by rewrite lookup_insert_eq.
    + exists 1%Z. split; [|lia].
      rewrite lookup_insert_ne by done. by rewrite lookup_singleton_eq.
Defined.

(** ** [build_model] *)

Lemma spiral_dims_lookup (m : string) (d : Z) :
  spiral_dims !! m = Some d ↔ (m = "spiral-x" ∨ m = "spiral-y") ∧ d = 1%Z.
Proof.
  unfold spiral_dims. rewrite lookup_insert_Some, lookup_singleton_Some.
  split; [naive_solver|].
  intros [[->| ->] ->]; [by left|]. right. by split.
Qed.

Lemma build_model_dims_Returns (mods : list string) :
  Forall (λ m, m = "spiral-x" ∨ m = "spiral-y") mods →
  build_model_dims mods = Returns (replicate (length mods) 1%Z).
Proof.
  intros H. unfold build_model_dims.
  rewrite (mapM_Returns_fmap _ (λ _, 1%Z)).
  - f_equal. induction mods; simpl; [done|]. f_equal. apply IHmods.
    by apply Forall_cons in H as [_ H].
  - eapply Forall_impl; [exact H|]. intros m Hm. simpl.
    apply getitem_Returns, spiral_dims_lookup. done.
Qed.

(** X17: for modalities among ['spiral-x'] and ['spiral-y'] (in any number
    and order) [build_model] calls the constructor with these modalities,
    dimension [1] for each of them, [z_dim = 5] and [h_dim = 20]. *)
Theorem build_model_spirals {M : Type}
    (constructor : list string → list Z → Z → Z → M) (args : Args) :
  Forall (λ m, m = "spiral-x" ∨ m = "spiral-y") (modalities args) →
  build_model constructor args
  = Returns (constructor (modalities args)
               (replicate (length (modalities args)) 1%Z) 5%Z 20%Z).
Proof.
  intros H. unfold build_model. by rewrite build_model_dims_Returns.
Qed.

Lemma build_model_spirals_witness :
  build_model (λ mods ds z h, (mods, ds, z, h))
    (mkArgs ["spiral-y"; "spiral-x"] None ∅ [] "data" "train" "test")
  = Returns (["spiral-y"; "spiral-x"], [1; 1]%Z, 5%Z, 20%Z).
Proof.
  apply (build_model_spirals (λ mods ds z h, (mods, ds, z, h))
           (mkArgs ["spiral-y"; "spiral-x"] None ∅ [] "data" "train" "test")).
  apply Forall_cons_2; [by right|].
  apply Forall_cons_2; [by left|]. apply Forall_nil_2.
Defined.

(** X19: if [self.model.dims] maps each modality to the dimension that
    [build_model] passed to the constructor, then with [rec_mults] unset
    and a uniform corruption fraction [u] below [1], [default_args]
    returns [args] with [rec_mults] set to a dict that gives every modality
    the multiplier [1 / len(modalities) * (1 / (1 - u))] and has no other
    entry; the modalities are unchanged. *)
Theorem default_args_after_build_model (dims : gmap string Z) (args : Args)
    (ds : list Z) :
  build_model_dims (modalities args) = Returns ds →
  (∀ i m d, modalities args !! i = Some m → ds !! i = Some d →
            dims !! m = Some d) →
  rec_mults args = None →
  corrupt_uniform args < 1 →
  ∃ args' r,
    default_args dims args = Returns args' ∧
    rec_mults args' = Some r ∧
    modalities args' = modalities args ∧
    (∀ m, m ∈ modalities args →
       r !! m = Some (1 / INR (length (modalities args))
                      * (1 / (1 - corrupt_uniform args)))) ∧
    (∀ m, m ∉ modalities args → r !! m = None).
Proof.
  intros Hbuild Hdims Hnone Hu.
  assert (∀ m, m ∈ modalities args → dims !! m = Some 1%Z) as Hone.
  { intros m Hin. apply list_elem_of_lookup in Hin as [i Hi].
    apply mapM_Returns_inv in Hbuild.
    destruct (Forall2_lookup_l _ _ _ _ _ Hbuild Hi) as (d & Hd & Hget).
    unfold getitem in Hget.
    destruct (spiral_dims !! m) as [d'|] eqn:Hm; [|done].
    injection Hget as ->. apply spiral_dims_lookup in Hm as [_ ->].
    by apply (Hdims i). }
  unfold default_args. rewrite Hnone.
  rewrite pydiv_Returns by lra. cbn [mbind outcome_bind].
  rewrite rec_mults_comprehension_Returns.
  - eexists _, _. split; [reflexivity|]. split; [reflexivity|].
    split; [reflexivity|]. split.
    + intros m Hin.
      rewrite comprehension_lookup, decide_True by done.
      unfold default_rec_mult. rewrite (Hone m Hin). simpl.
      f_equal. f_equal. unfold Rdiv. rewrite Rinv_1. ring.
    + intros m Hout.
      rewrite comprehension_lookup, decide_False by done.
      apply lookup_empty.
  - apply Forall_forall. intros m Hin. split; [done|].
    exists 1%Z. split; [by apply Hone|lia].
Qed.

Lemma default_args_after_build_model_witness :
  let args := mkArgs ["spiral-x"; "spiral-y"] None {["uniform" := 0.5]} []
                     "data" "train" "test" in
  ∃ args' r,
    default_args {["spiral-x" := 1%Z; "spiral-y" := 1%Z]} args
    = Returns args' ∧
    rec_mults args' = Some r ∧
    modalities args' = modalities args ∧
    (∀ m, m ∈ modalities args →
       r !! m = Some (1 / INR (length (modalities args))
                      * (1 / (1 - corrupt_uniform args)))) ∧
    (∀ m, m ∉ modalities args → r !! m = None).
Proof.
  intros args.
  apply (default_args_after_build_model _ args [1; 1]%Z).
  - reflexivity.
  - intros [|[|i]] m d Hm Hd; simpl in *; simplify_eq.
    + by rewrite lookup_insert_eq.
    + rewrite lookup_insert_ne by done. by rewrite lookup_singleton_eq.
  - reflexivity.
  - unfold corrupt_uniform, args. simpl. rewrite lookup_singleton_eq. simpl. lra.
Defined.

(** ** [visualize]: what each panel shows *)



(** ** [visualize]: selection and axes for any number of sequences *)

(** X21: with at most four sequences every sequence is selected twice: the
    selection is the order followed by the reversed order. Whenever
    [visualize] returns it has drawn [2 * n] panels, panel [i] being the
    plot of the [i]-th selected sequence with its title and label; an
    empty metric list gives no panel. It returns on results that cover
    the metric list. *)
Theorem visualize_few_sequences (argsort : list R → list nat)
    (results : Results) (metric : list R) :
  argsort_spec argsort →
  (length metric ≤ 4)%nat →
  let sel_idx := select_indices argsort metric in
  (sel_idx = argsort metric ++ reverse (argsort metric) ∧
   sel_idx ≡ₚ seq 0 (length metric) ++ seq 0 (length metric)) ∧
  (∀ panels : list panel,
     visualize argsort results metric = Returns panels →
     length panels = (2 * length metric)%nat ∧
     ∀ (i : nat) (p : panel), panels !! i = Some p →
       ∃ s m drawn,
         sel_idx !! i = Some s ∧ metric !! s = Some m ∧
         sequence_plot results s = Returns drawn ∧
         p = mkPanel (i mod 4) (i / 4)
                     (drawn ++ [set_title m; set_xlabel s])) ∧
  (results_cover (length metric) results →
   ∃ panels, visualize argsort results metric = Returns panels).
Proof.
  intros Hspec Hn sel_idx.
  pose proof (argsort_length argsort Hspec metric) as Hlen.
  assert (sel_idx = argsort metric ++ reverse (argsort metric)) as Hsel.
  { unfold sel_idx, select_indices, last4.
    rewrite take_ge by lia.
    by replace (length (argsort metric) - 4)%nat with 0%nat by lia. }
  split; [|split].
  - split; [done|]. rewrite Hsel, reverse_Permutation.
    destruct (Hspec metric) as [Hperm _]. by rewrite Hperm.
  - intros panels Hret. split.
    + rewrite (visualize_length _ _ _ _ Hret). fold sel_idx.
      rewrite Hsel, length_app, length_reverse. lia.
    + intros i p Hp. by apply (visualize_panel_inv _ _ _ panels).
  - intros Hcover. apply visualize_Returns; [|done].
    by apply select_indices_valid.
Qed.

Lemma visualize_few_sequences_witness :
  let metric := [0.3; 0.1; 0.2] in
  let sel_idx := select_indices merge_argsort metric in
  (sel_idx = merge_argsort metric ++ reverse (merge_argsort metric) ∧
   sel_idx ≡ₚ seq 0 (length metric) ++ seq 0 (length metric)) ∧
  ∃ panels,
    visualize merge_argsort (uniform_results 3) metric = Returns panels ∧
    length panels = (2 * length metric)%nat ∧
    ∀ (i : nat) (p : panel), panels !! i = Some p →
      ∃ s m drawn,
        sel_idx !! i = Some s ∧ metric !! s = Some m ∧
        sequence_plot (uniform_results 3) s = Returns drawn ∧
        p = mkPanel (i mod 4) (i / 4) (drawn ++ [set_title m; set_xlabel s]).
Proof.
  intros metric sel_idx.
  destruct (visualize_few_sequences merge_argsort (uniform_results 3) metric
              merge_argsort_spec)
    as (Hsel & Hdrawn & Hreturns); [simpl; lia|].
  split; [exact Hsel|].
  destruct (Hreturns (uniform_results_cover 3)) as [panels Hret].
  exists panels. split; [done|]. exact (Hdrawn panels Hret).
Defined.

Lemma axis_of_index_inj (i j : nat) :
  ((i mod 4)%nat, (i / 4)%nat) = ((j mod 4)%nat, (j / 4)%nat) → i = j.
Proof.
  intros H.
  pose proof (f_equal fst H) as Hmod. pose proof (f_equal snd H) as Hdiv.
  cbn [fst snd] in Hmod, Hdiv.
  rewrite (Nat.div_mod_eq i 4), Hmod, Hdiv. symmetry. apply Nat.div_mod_eq.
Qed.

(** X22: for any number of sequences, whenever [visualize] returns it has
    drawn at most eight panels, each on an axis of the 4 x 2 grid, and no
    two panels on the same axis. It returns on results that cover the
    metric list. *)
Theorem visualize_axes_distinct (argsort : list R → list nat)
    (results : Results) (metric : list R) :
  argsort_spec argsort →
  (∀ panels : list panel,
     visualize argsort results metric = Returns panels →
     (length panels ≤ 8)%nat ∧
     Forall (λ p, (axis_row p < 4)%nat ∧ (axis_col p < 2)%nat) panels ∧
     NoDup ((λ p, (axis_row p, axis_col p)) <$> panels)) ∧
  (results_cover (length metric) results →
   ∃ panels, visualize argsort results metric = Returns panels).
Proof.
  intros Hspec. split.
  - intros panels Hret.
    assert (length panels ≤ 8)%nat as Hle.
    { rewrite (visualize_length _ _ _ _ Hret). unfold select_indices, last4.
      rewrite length_app, length_reverse, length_drop, length_take. lia. }
    split; [done|]. split.
    + apply Forall_forall. intros p Hin.
      apply list_elem_of_lookup in Hin as [i Hi].
      pose proof (lookup_lt_Some _ _ _ Hi) as Hlt.
      destruct (visualize_panel_inv _ _ _ _ _ _ Hret Hi)
        as (s & m & drawn & _ & _ & _ & ->).
      cbn [axis_row axis_col].
      split; [apply Nat.mod_upper_bound; lia|].
      apply Nat.Div0.div_lt_upper_bound. lia.
    + apply NoDup_alt. intros i j x Hi Hj.
      rewrite list_lookup_fmap in Hi, Hj.
      destruct (panels !! i) as [p|] eqn:Hp; [|done].
      destruct (panels !! j) as [q|] eqn:Hq; [|done].
      destruct (visualize_panel_inv _ _ _ _ _ _ Hret Hp)
        as (s & m & drawn & _ & _ & _ & ->).
      destruct (visualize_panel_inv _ _ _ _ _ _ Hret Hq)
        as (s' & m' & drawn' & _ & _ & _ & ->).
      cbn [fmap option_fmap option_map axis_row axis_col] in Hi, Hj.
      apply axis_of_index_inj. congruence.
  - intros Hcover. apply visualize_Returns; [|done].
    by apply select_indices_valid.
Qed.

Lemma visualize_axes_distinct_witness :
  ∃ panels,
    visualize merge_argsort (uniform_results 11)
      [0.3; 0.1; 0.2; 0.5; 0.4; 0.9; 0.8; 0.7; 0.6; 1.1; 1.0]
    = Returns panels ∧
    (length panels ≤ 8)%nat ∧
    Forall (λ p, (axis_row p < 4)%nat ∧ (axis_col p < 2)%nat) panels ∧
    NoDup ((λ p, (axis_row p, axis_col p)) <$> panels).
Proof.
  destruct (visualize_axes_distinct merge_argsort (uniform_results 11)
              [0.3; 0.1; 0.2; 0.5; 0.4; 0.9; 0.8; 0.7; 0.6; 1.1; 1.0]
              merge_argsort_spec) as [Hdrawn Hreturns].
  destruct (Hreturns (uniform_results_cover 11)) as [panels Hret].
  exists panels. split; [done|]. exact (Hdrawn panels Hret).
Defined.

Lemma select_indices_all (argsort : list R → list nat) (metric : list R)
    (q : nat) :
  argsort_spec argsort → (length metric ≤ 8)%nat → (q < length metric)%nat →
  q ∈ select_indices argsort metric.
Proof.
  intros Hspec Hn Hq.
  pose proof (argsort_length argsort Hspec metric) as Hlen.
  apply (argsort_elem_of argsort Hspec metric) in Hq.
  apply list_elem_of_lookup in Hq as [j Hj].
  unfold select_indices, last4. apply elem_of_app.
  destruct (decide (j < 4)%nat) as [Hj4|Hj4].
  - left. apply elem_of_take. eauto.
  - right. apply elem_of_reverse, elem_of_drop_lookup.
    exists j. split; [done|]. apply lookup_lt_Some in Hj. lia.
Qed.

(** X23: with at most eight sequences, if [results] holds the metadata of
    fewer sequences than there are metric values, [visualize] raises
    [IndexError]. *)
Theorem visualize_IndexError (argsort : list R → list nat)
    (results : Results) (metric : list R) :
  argsort_spec argsort →
  (length metric ≤ 8)%nat →
  (length (targets_metadata results) < length metric)%nat →
  visualize argsort results metric = Raises IndexError.
Proof.
  intros Hspec Hn Hshort. unfold visualize.
  pose proof (select_indices_valid argsort Hspec metric) as Hvalid.
  destruct (mapM_Returns_Forall2 (index metric) (λ _ _, True)
              (select_indices argsort metric)) as (sel_metric & -> & _).
  { eapply Forall_impl; [exact Hvalid|]. intros s Hs. simpl in Hs.
    destruct (lookup_lt_is_Some_2 metric s Hs) as [x Hx].
    exists x. by rewrite (index_Returns _ _ _ Hx). }
  cbn [mbind outcome_bind].
  rewrite (mapM_Raises_some
             (λ i, arr ← index (targets_metadata results) i;
                   mret (take 2 <$> arr)) _ IndexError); [reflexivity| |].
  - apply Forall_forall. intros s _. unfold index.
    destruct (targets_metadata results !! s); [left; by eexists|by right].
  - apply Exists_exists. exists (length (targets_metadata results)).
    split; [by apply select_indices_all|].
    unfold index. by rewrite lookup_ge_None_2.
Qed.

Lemma visualize_IndexError_witness :
  visualize merge_argsort (uniform_results 2) [0.3; 0.1; 0.2]
  = Raises IndexError.
Proof.
  apply visualize_IndexError.
  - apply merge_argsort_spec.
  - simpl. lia.
  - simpl. lia.
Defined.

(** X24: for a non-empty metric list the first selected sequence has the
    smallest metric and the first sequence of the second group (position
    [4], or [n] when there are fewer than four sequences) has the largest
    metric. *)
Theorem visualize_first_of_each_group (argsort : list R → list nat)
    (metric : list R) :
  argsort_spec argsort →
  metric ≠ [] →
  ∃ p q lo hi,
    select_indices argsort metric !! 0%nat = Some p ∧
    select_indices argsort metric !! (4 `min` length metric)%nat = Some q ∧
    metric !! p = Some lo ∧ metric !! q = Some hi ∧
    ∀ i x, metric !! i = Some x → lo <= x <= hi.
Proof.
  intros Hspec Hne.
  pose proof (argsort_length argsort Hspec metric) as Hlen.
  assert (0 < length metric)%nat as Hpos by (destruct metric; simpl; [done|lia]).
  destruct (lookup_lt_is_Some_2 (argsort metric) 0) as [p Hp]; [lia|].
  destruct (lookup_lt_is_Some_2 (argsort metric) (length metric - 1))
    as [q Hq]; [lia|].
  destruct (lookup_lt_is_Some_2 metric p) as [lo Hlo].
  { apply (argsort_elem_of argsort Hspec). by eapply list_elem_of_lookup_2. }
  destruct (lookup_lt_is_Some_2 metric q) as [hi Hhi].
  { apply (argsort_elem_of argsort Hspec). by eapply list_elem_of_lookup_2. }
  exists p, q, lo, hi.
  assert (length (take 4 (argsort metric)) = (4 `min` length metric)%nat)
    as Htake by (by rewrite length_take, Hlen).
  split; [|split; [|split; [done|split; [done|]]]].
  - unfold select_indices. apply lookup_app_l_Some.
    by rewrite lookup_take_lt by lia.
  - unfold select_indices, last4. rewrite lookup_app_r by lia.
    rewrite Htake, Nat.sub_diag. apply reverse_lookup_Some.
    rewrite length_drop, lookup_drop, Hlen. split; [|lia].
    by replace (length metric - 4
                + (length metric - (length metric - 4) - 1))%nat
      with (length metric - 1)%nat by lia.
  - intros i x Hi.
    destruct (argsort_position argsort Hspec metric i x Hi) as [j Hj].
    pose proof (lookup_lt_Some _ _ _ Hj) as Hjlt.
    split.
    + apply (argsort_ascending argsort Hspec metric 0%nat j p i);
        try done. lia.
    + apply (argsort_ascending argsort Hspec metric j
               (length metric - 1)%nat i q); try done. lia.
Qed.

Lemma visualize_first_of_each_group_witness :
  let metric : list R := [0.3; 0.1; 0.2] in
  ∃ p q lo hi,
    select_indices merge_argsort metric !! 0%nat = Some p ∧
    select_indices merge_argsort metric !! (4 `min` length metric)%nat
      = Some q ∧
    metric !! p = Some lo ∧ metric !! q = Some hi ∧
    ∀ i x, metric !! i = Some x → lo <= x <= hi.
Proof.
  intros metric.
  apply visualize_first_of_each_group; [apply merge_argsort_spec|discriminate].
Defined.

(** ** [plot_spiral]: the exception and the markers *)

(** X25: predictions whose x and y columns differ in length make
    [plot_spiral] raise [ValueError] (from [np.column_stack]). *)
Theorem plot_spiral_ValueError (true data : list R * list R)
    (obsv : list (option R) * list (option R)) (pred rng : list R * list R) :
  length pred.1 ≠ length pred.2 →
  plot_spiral true data obsv pred rng = Raises ValueError.
Proof.
  intros Hlen. unfold plot_spiral, column_stack.
  by rewrite bool_decide_eq_false_2.
Qed.

Lemma plot_spiral_ValueError_witness :
  plot_spiral ([0], [0]) ([0], [0]) ([Some 0], [Some 0])
              ([0.5; 1.5], [0.25]) ([0.1], [0.3])
  = Raises ValueError.
Proof.
  apply plot_spiral_ValueError. simpl. lia.
Defined.

Lemma isnan_differs_true (a b : list (option R)) :
  isnan_differs a b = true ↔
  ∃ k x y, a !! k = Some x ∧ b !! k = Some y ∧ ¬ (is_Some x ↔ is_Some y).
Proof.
  unfold isnan_differs. rewrite existsb_exists. split.
  - intros ([x y] & Hin & Hxy).
    apply list_elem_of_In, list_elem_of_lookup in Hin as [k Hk].
    apply lookup_zip_with_Some in Hk as (x' & y' & [= <- <-] & Hx & Hy).
    exists k, x, y. split; [done|]. split; [done|].
    apply negb_true_iff, bool_decide_eq_false in Hxy. done.
  - intros (k & x & y & Hx & Hy & Hxy). exists (x, y). split.
    + apply list_elem_of_In, list_elem_of_lookup. exists k.
      apply lookup_zip_with_Some. eauto.
    + by apply negb_true_iff, bool_decide_eq_false.
Qed.

(** X26: whenever [plot_spiral] returns, it has first cleared the axis;
    the markers for points observed in x only (['<']) and in y only
    (['v']) are drawn exactly when at some time-step one of the two
    observed coordinates is [nan] and the other is not; the truth, the
    observations and the predictions are always drawn, in this order. *)
Theorem plot_spiral_markers (true data : list R * list R)
    (obsv : list (option R) * list (option R)) (pred rng : list R * list R)
    (drawn : list axis_call) :
  plot_spiral true data obsv pred rng = Returns drawn →
  head drawn = Some cla ∧
  ((∃ k x y, obsv.1 !! k = Some x ∧ obsv.2 !! k = Some y ∧
             ¬ (is_Some x ↔ is_Some y)) →
   plot_formats drawn = ["b-"; "<"; "v"; "bo"; "-"]) ∧
  ((¬ ∃ k x y, obsv.1 !! k = Some x ∧ obsv.2 !! k = Some y ∧
               ¬ (is_Some x ↔ is_Some y)) →
   plot_formats drawn = ["b-"; "bo"; "-"]).
Proof.
  intros (_ & _ & _ & ->)%plot_spiral_inv. unfold plot_spiral_calls.
  split; [done|].
  destruct (isnan_differs obsv.1 obsv.2) eqn:Hd.
  - split; [done|]. intros Hno. destruct Hno.
    by apply isnan_differs_true.
  - split; [|done]. intros Hex. apply isnan_differs_true in Hex. congruence.
Qed.

Lemma plot_spiral_markers_witness :
  ∃ drawn,
    plot_spiral ([0; 1], [0; 1]) ([0; 1], [0; 1])
                ([Some 0; None], [Some 0; Some 1])
                ([0.5; 1.5], [0.25; 1.25]) ([0.1; 0.2], [0.3; 0.4])
    = Returns drawn ∧
    head drawn = Some cla ∧
    ((∃ k x y, [Some 0; None] !! k = Some x ∧
               ([Some 0; Some 1] : list (option R)) !! k = Some y ∧
               ¬ (is_Some x ↔ is_Some y)) →
     plot_formats drawn = ["b-"; "<"; "v"; "bo"; "-"]) ∧
    ((¬ ∃ k x y, [Some 0; None] !! k = Some x ∧
                 ([Some 0; Some 1] : list (option R)) !! k = Some y ∧
                 ¬ (is_Some x ↔ is_Some y)) →
     plot_formats drawn = ["b-"; "bo"; "-"]).
Proof.
  eexists. split.
  - apply plot_spiral_Returns. by repeat split.
  - apply (plot_spiral_markers ([0; 1], [0; 1]) ([0; 1], [0; 1])
             ([Some 0; None], [Some 0; Some 1])
             ([0.5; 1.5], [0.25; 1.25]) ([0.1; 0.2], [0.3; 0.4])).
    apply plot_spiral_Returns. by repeat split.
Defined.

(** ** [test_spacy.py] prints nothing else *)

(** X27: every line the script prints is the line of a pair of tokens:
    line [k] belongs to the tokens at positions [k // n] and [k mod n];
    in particular an empty document prints nothing. *)
Theorem test_spacy_only_pairs {Token : Type} (text : Token → string)
    (similarity : Token → Token → R) (str : R → string)
    (tokens : list Token) (k : nat) (line : string) :
  test_spacy text similarity str tokens !! k = Some line →
  ∃ token1 token2,
    tokens !! (k / length tokens)%nat = Some token1 ∧
    tokens !! (k mod length tokens)%nat = Some token2 ∧
    line = print3 (text token1) (text token2)
                  (str (similarity token1 token2)).
Proof.
  unfold test_spacy.
  rewrite (print_loop_outer
             (λ t1 t2, print3 (text t1) (text t2) (str (similarity t1 t2)))).
  rewrite app_nil_l. intros Hk.
  set (n := length tokens) in *.
  assert (Forall (λ row : list string, length row = n)
            ((λ token1, (λ token2, print3 (text token1) (text token2)
                                     (str (similarity token1 token2)))
                        <$> tokens) <$> tokens)) as Hrows.
  { apply Forall_fmap, Forall_forall. intros t _. simpl.
    by rewrite length_fmap. }
  pose proof (lookup_lt_Some _ _ _ Hk) as Hlt.
  rewrite (length_concat_rows n) in Hlt by done.
  rewrite length_fmap in Hlt. fold n in Hlt.
  assert (0 < n)%nat as Hn by (destruct n; lia).
  assert (k mod n < n)%nat as Hmod by (apply Nat.mod_upper_bound; lia).
  assert (k = (k / n * n + k mod n)%nat) as Hdiv
    by (rewrite (Nat.mul_comm (k / n) n); apply Nat.div_mod_eq).
  rewrite Hdiv in Hk.
  rewrite (concat_lookup_rows n) in Hk by done.
  rewrite list_lookup_fmap in Hk.
  destruct (tokens !! (k / n)%nat) as [token1|]; [|done]. simpl in Hk.
  rewrite list_lookup_fmap in Hk.
  destruct (tokens !! (k mod n)%nat) as [token2|]; [|done].
  injection Hk as <-. by exists token1, token2.
Qed.

Lemma test_spacy_only_pairs_witness :
  ∃ token1 token2,
    ["dog"; "cat"] !! (2 / length ["dog"; "cat"])%nat = Some token1 ∧
    ["dog"; "cat"] !! (2 mod length ["dog"; "cat"])%nat = Some token2 ∧
    print3 "cat" "dog" "<float>"
    = print3 ((λ token : string, token) token1)
             ((λ token : string, token) token2)
             ((λ _ : R, "<float>")
                ((λ a b : string, if decide (a = b) then 1 else 0)
                   token1 token2)).
Proof.
  apply (test_spacy_only_pairs (λ token : string, token)
           (λ a b, if decide (a = b) then 1 else 0)
           (λ _, "<float>") ["dog"; "cat"] 2 (print3 "cat" "dog" "<float>")).
  reflexivity.
Defined.
